(** * The investment game: strategies, allocation, valuation, comparison

    A shallow embedding of [investment-game.py] and the properties of its
    selection strategies, of [Investor.invest], of
    [calculate_portfolio_return] and of [compare_portfolios], followed by
    the console layer (the menus, the input loops and the run of the
    module) and its properties.

    Conventions of the embedding.
    - Python numbers are exact rationals ([Q]); the rounding of binary64
      floats is not modelled.  For the integer prices and balances of
      the program's own tables the two agree.  Equality of numbers is [==].
    - A Python [dict] is an association list in insertion order whose
      keys are pairwise distinct ([dict_wf]).
    - An instrument's attribute dict is the record [StockData]; the
      attributes that the later table leaves out are optional fields.
    - A call yields the lines it printed and then either a value or the
      exception it raised (the type [M]).  A method that mutates [self]
      takes the investor and hands back the updated one. *)

From Stdlib Require Import List String Bool Arith ZArith QArith Qround Qabs.
From Stdlib Require Import Lia Lqa Permutation Sorted.
From Stdlib Require Import Ascii.
Import ListNotations.

Local Open Scope string_scope.
Local Open Scope list_scope.
Local Open Scope Q_scope.

(** ** Exceptions, printed lines and the outcome of a call *)

Inductive PyError : Type :=
| KeyError (key : string)
| NameError (name : string)
| ZeroDivisionError
| ValueError.

(** The lines the program prints.  A formatted line keeps the values it
    was formatted from. *)
Inductive Event : Type :=
| NoValidStocks                         (* "No valid stocks to invest in." *)
| SelectedStocks (stocks : list string) (* "Selected stocks based on criteria: ..." *)
| NoValidStocksForCriteria              (* "No valid stocks to invest in based on the criteria provided." *)
| InitialValueZero                      (* "Initial portfolio value is zero; no investments were made." *)
| PortfolioReturn (who : string) (pct : Q)  (* "{name}'s portfolio return: {pct:.2f}%" *)
| BestPerformer (who : string) (pct : Q).   (* "The best performing portfolio is ..." *)

Inductive Exc (A : Type) : Type :=
| Raise (e : PyError)
| Return (a : A).
Arguments Raise {A} e.
Arguments Return {A} a.

Definition M (A : Type) : Type := (list Event * Exc A)%type.

Definition ret {A} (a : A) : M A := ([], Return a).
Definition raise {A} (e : PyError) : M A := ([], Raise e).
Definition print (ev : Event) : M unit := ([ev], Return tt).

Definition bind {A B} (m : M A) (f : A -> M B) : M B :=
  match m with
  | (out, Raise e) => (out, Raise e)
  | (out, Return a) => let (out', r) := f a in (out ++ out', r)
  end.

Notation "x <- m ;; k" := (bind m (fun x => k))
  (at level 61, m at next level, right associativity).
Notation "m ;;; k" := (bind m (fun _ => k))
  (at level 61, right associativity).

(** A [for] loop that threads a value through its body. *)
Fixpoint foldM {A S} (body : S -> A -> M S) (l : list A) (s : S) : M S :=
  match l with
  | [] => ret s
  | x :: l' => s' <- body s x ;; foldM body l' s'
  end.

(** A comprehension whose element expression may raise. *)
Fixpoint mapM {A B} (f : A -> M B) (l : list A) : M (list B) :=
  match l with
  | [] => ret []
  | x :: l' => y <- f x ;; ys <- mapM f l' ;; ret (y :: ys)
  end.

(** [m] prints nothing and returns [a]. *)
Definition returns {A} (m : M A) (a : A) : Prop := m = ([], Return a).

(** ** Numbers *)

Definition Qltb (a b : Q) : bool := negb (Qle_bool b a).

(** [a / b] *)
Definition py_div (a b : Q) : M Q :=
  if Qeq_bool b 0 then raise ZeroDivisionError else ret (a / b).

(** [int(x)]: truncation toward zero. *)
Definition py_int (x : Q) : Z := Z.quot (Qnum x) (Zpos (Qden x)).

(** [sum(...)]: starts from 0 and adds from the left. *)
Definition py_sum (l : list Q) : Q := fold_left Qplus l 0.

(** A float that may be infinite: the bounds typed by the player and
    the default [float('inf')].  NaN is not modelled. *)
Inductive PyFloat : Type :=
| NegInf
| Fin (q : Q)
| PosInf.

(** [a <= b] on floats. *)
Definition fle (a b : PyFloat) : bool :=
  match a, b with
  | NegInf, _ => true
  | _, PosInf => true
  | Fin x, Fin y => Qle_bool x y
  | _, _ => false
  end.

(** ** Dictionaries *)

Definition dict (V : Type) : Type := list (string * V).

Definition items {V} (d : dict V) : list (string * V) := d.
Definition keys {V} (d : dict V) : list string := map fst d.
Definition dict_wf {V} (d : dict V) : Prop := NoDup (keys d).

Fixpoint dict_get {V} (d : dict V) (k : string) : option V :=
  match d with
  | [] => None
  | (k', v) :: d' => if String.eqb k k' then Some v else dict_get d' k
  end.

(** [k in d] *)
Definition dict_mem {V} (d : dict V) (k : string) : bool :=
  match dict_get d k with Some _ => true | None => false end.

(** [d[k]] *)
Definition getitem {V} (d : dict V) (k : string) : M V :=
  match dict_get d k with
  | Some v => ret v
  | None => raise (KeyError k)
  end.

(** [d[k] = v]: an existing key keeps its place, a new one goes last. *)
Fixpoint dict_set {V} (d : dict V) (k : string) (v : V) : dict V :=
  match d with
  | [] => [(k, v)]
  | (k', v') :: d' =>
      if String.eqb k k' then (k', v) :: d' else (k', v') :: dict_set d' k v
  end.

(** ** Market data *)

Record StockData : Type := mkStock {
  price : Q;
  change : option Q;
  market_cap : option Q;
  volatility : option Q
}.

Definition MarketData : Type := dict StockData.

(** [data['change']] *)
Definition get_change (data : StockData) : M Q :=
  match change data with
  | Some c => ret c
  | None => raise (KeyError "change")
  end.

(** ** [sorted(iterable, key=...)]

    The keys are computed first, one per element and in order; the
    elements are then arranged by [<] on the keys, equal keys keeping
    their original order.  Any stable sort yields the same list; this
    one inserts from the back. *)

Fixpoint insert_by {A} (k : Q) (x : A) (l : list (Q * A)) : list (Q * A) :=
  match l with
  | [] => [(k, x)]
  | (k', y) :: l' =>
      if Qltb k' k then (k', y) :: insert_by k x l' else (k, x) :: l
  end.

Fixpoint isort {A} (l : list (Q * A)) : list (Q * A) :=
  match l with
  | [] => []
  | (k, x) :: l' => insert_by k x (isort l')
  end.

Definition sorted {A} (l : list A) (key : A -> M Q) : M (list A) :=
  decorated <- mapM (fun x => k <- key x ;; ret (k, x)) l ;;
  ret (map snd (isort decorated)).

(** ** Strategies *)

Inductive Strategy : Type :=
| AggressiveStrategy
| ConservativeStrategy
| RandomStrategy
| CustomStrategy (stocks : list string).

Definition select_stocks (self : Strategy) (market_data : MarketData)
  : M (list string) :=
  match self with
  | AggressiveStrategy =>
      sorted_stocks <- sorted (items market_data) (fun x => get_change (snd x)) ;;
      ret (map fst (firstn 10 sorted_stocks))
  | ConservativeStrategy =>
      sorted_stocks <- sorted (items market_data)
                         (fun x => c <- get_change (snd x) ;; ret (Qabs c)) ;;
      ret (map fst (firstn 10 sorted_stocks))
  | RandomStrategy =>
      (* [stock_list = list(market_data.keys())] succeeds; the next line
         evaluates the name [random], which the module never imports. *)
      raise (NameError "random")
  | CustomStrategy stocks =>
      ret (filter (fun stock => dict_mem market_data stock) stocks)
  end.

(** ** Investor *)

Record Investor : Type := mkInvestor {
  name : string;
  strategy : Strategy;
  balance : Q;
  portfolio : dict Z
}.

(** The body of the loop of [invest].  The source indexes
    [market_data[stock]['price']] twice; both reads yield the same
    record, which is looked up once here. *)
Definition buy (market_data : MarketData) (amount_per_stock : Q)
    (self : Investor) (stock : string) : M Investor :=
  data <- getitem market_data stock ;;
  q <- py_div amount_per_stock (price data) ;;
  let shares_to_buy := py_int q in
  ret {| name := name self;
         strategy := strategy self;
         balance := balance self - inject_Z shares_to_buy * price data;
         portfolio := dict_set (portfolio self) stock shares_to_buy |}.

Definition invest (self : Investor) (market_data : MarketData) : M Investor :=
  stocks_to_buy <- select_stocks (strategy self) market_data ;;
  let num_stocks := List.length stocks_to_buy in
  if Nat.eqb num_stocks 0 then
    print NoValidStocks ;;; ret self
  else
    amount_per_stock <- py_div (balance self) (inject_Z (Z.of_nat num_stocks)) ;;
    foldM (buy market_data amount_per_stock) stocks_to_buy self.

(** ** The criteria-based strategy (second, live definition)

    The two prompts are the collaborator's; the four parsed bounds are
    taken as arguments. *)

Definition get_or_inf (attr : option Q) : PyFloat :=
  match attr with Some v => Fin v | None => PosInf end.

Definition meets_criteria (min_market_cap max_market_cap
    min_volatility max_volatility : PyFloat) (data : StockData) : bool :=
  (fle min_market_cap (get_or_inf (market_cap data))
   && fle (get_or_inf (market_cap data)) max_market_cap)
  && (fle min_volatility (get_or_inf (volatility data))
      && fle (get_or_inf (volatility data)) max_volatility).

Definition create_custom_strategy (market_data : MarketData)
    (min_market_cap max_market_cap min_volatility max_volatility : PyFloat)
  : M (option Strategy) :=
  let selected_stocks :=
    map fst (filter (fun x => meets_criteria min_market_cap max_market_cap
                                min_volatility max_volatility (snd x))
               (items market_data)) in
  print (SelectedStocks selected_stocks) ;;;
  match selected_stocks with
  | [] => print NoValidStocksForCriteria ;;; ret None
  | _ => ret (Some (CustomStrategy (firstn 10 selected_stocks)))
  end.

(** ** Valuation and comparison *)

Definition initial_value (portfolio : dict Z) (initial_market_data : MarketData)
  : M Q :=
  terms <- mapM (fun x => data <- getitem initial_market_data (fst x) ;;
                          ret (price data * inject_Z (snd x)))
                (items portfolio) ;;
  ret (py_sum terms).

Definition final_value (portfolio : dict Z) (final_market_data : MarketData)
  : M Q :=
  terms <- mapM (fun x => data <- getitem final_market_data (fst x) ;;
                          ret (price data * inject_Z (snd x)))
                (filter (fun x => dict_mem final_market_data (fst x))
                        (items portfolio)) ;;
  ret (py_sum terms).

Definition calculate_portfolio_return (portfolio : dict Z)
    (initial_market_data final_market_data : MarketData) : M Q :=
  initial <- initial_value portfolio initial_market_data ;;
  final <- final_value portfolio final_market_data ;;
  if Qeq_bool initial 0 then
    print InitialValueZero ;;; ret 0
  else
    q <- py_div (final - initial) initial ;;
    ret (q * 100).

(** [max(results, key=results.get)]: the first key whose value no later
    value exceeds; a candidate is replaced only by a strictly greater one. *)
Fixpoint max_from (best : string * Q) (l : list (string * Q)) : string * Q :=
  match l with
  | [] => best
  | x :: l' => if Qltb (snd best) (snd x) then max_from x l' else max_from best l'
  end.

Definition py_max_key (results : dict Q) : M string :=
  match items results with
  | [] => raise ValueError
  | x :: l => ret (fst (max_from x l))
  end.

(** The body of the loop of [compare_portfolios]. *)
Definition compare_step (initial_market_data final_market_data : MarketData)
    (results : dict Q) (investor : Investor) : M (dict Q) :=
  return_pct <- calculate_portfolio_return (portfolio investor)
                  initial_market_data final_market_data ;;
  let results := dict_set results (name investor) return_pct in
  print (PortfolioReturn (name investor) return_pct) ;;;
  ret results.

(** The mapping [results] as it stands when the loop ends. *)
Definition compare_results (investors : list Investor)
    (initial_market_data final_market_data : MarketData) : M (dict Q) :=
  foldM (compare_step initial_market_data final_market_data) investors [].

(** The function prints its findings and has no [return]: its value is
    [None]. *)
Definition compare_portfolios (investors : list Investor)
    (initial_market_data final_market_data : MarketData) : M unit :=
  results <- compare_results investors initial_market_data final_market_data ;;
  best_performer <- py_max_key results ;;
  best_return <- getitem results best_performer ;;
  print (BestPerformer best_performer best_return) ;;;
  ret tt.

(** ** The program's two tables *)

Definition listing (p : Z) (c : Q) (cap vol : Z) : StockData :=
  mkStock (inject_Z p) (Some c) (Some (inject_Z cap)) (Some (inject_Z vol)).

Definition market_data : MarketData :=
  [ ("AAPL", listing 150 (-5 # 10) 2200 25);
    ("GOOGL", listing 2720 (-1) 1800 30);
    ("MSFT", listing 280 (2 # 10) 2000 22);
    ("AMZN", listing 3100 (-2) 1600 35);
    ("FB", listing 275 (5 # 10) 900 40);
    ("NFLX", listing 480 (-3 # 10) 300 50);
    ("TSLA", listing 900 (15 # 10) 800 60);
    ("BABA", listing 88 (-12 # 10) 500 45);
    ("V", listing 210 (4 # 10) 500 18);
    ("MA", listing 330 (1 # 10) 400 20);
    ("INTC", listing 48 (-8 # 10) 220 30);
    ("AMD", listing 106 1 130 55);
    ("PYPL", listing 104 (-2 # 10) 250 28);
    ("CSCO", listing 45 (6 # 10) 200 23);
    ("IBM", listing 135 (-4 # 10) 120 19);
    ("NVDA", listing 300 2 500 50);
    ("ORCL", listing 88 (3 # 10) 250 20);
    ("ACN", listing 310 (-7 # 10) 180 17);
    ("KO", listing 60 (1 # 10) 230 12);
    ("PEP", listing 160 (-1 # 10) 200 15) ].

Definition price_only (p : Z) : StockData := mkStock (inject_Z p) None None None.

Definition market_data_next_year : MarketData :=
  [ ("AAPL", price_only 165); ("GOOGL", price_only 2900);
    ("MSFT", price_only 300); ("AMZN", price_only 2800);
    ("FB", price_only 295); ("NFLX", price_only 500);
    ("TSLA", price_only 950); ("BABA", price_only 95);
    ("V", price_only 225); ("MA", price_only 350);
    ("INTC", price_only 52); ("AMD", price_only 116);
    ("PYPL", price_only 110); ("CSCO", price_only 50);
    ("IBM", price_only 145); ("NVDA", price_only 330);
    ("ORCL", price_only 95); ("ACN", price_only 330);
    ("KO", price_only 65); ("PEP", price_only 170) ].

(** ** Vocabulary of the statements *)

Section SortVocabulary.
Context {A : Type} (g : A -> Q).

Definition by_key (x y : A) : Prop := g x <= g y.
Definition same_key (c : Q) (x : A) : bool := Qeq_bool (g x) c.
Definition decorate (x : A) : Q * A := (g x, x).

(** The sort read on the elements themselves, the key being a pure
    function of the element. *)
Fixpoint insert_key (x : A) (l : list A) : list A :=
  match l with
  | [] => [x]
  | y :: l' => if Qltb (g y) (g x) then y :: insert_key x l' else x :: l
  end.

Definition sort_by (l : list A) : list A := fold_right insert_key [] l.

(** What the first [n] elements of the sorted list are: as many as there
    are, up to [n]; elements of the list; in ascending key order; among
    equal keys the earliest of the list, in the list's order; and no
    element left out has a smaller key than one taken. *)
Definition ranked_prefix (n : nat) (l picked : list A) : Prop :=
  List.length picked = Nat.min n (List.length l)
  /\ incl picked l
  /\ StronglySorted by_key picked
  /\ (forall c, exists rest,
        filter (same_key c) l = filter (same_key c) picked ++ rest)
  /\ (forall x y, In x picked -> In y l -> ~ In y picked -> by_key x y).

End SortVocabulary.

(** The key the two sorting strategies read, as a total function. *)
Definition change_of (data : StockData) : Q :=
  match change data with Some c => c | None => 0 end.

Definition has_change (data : StockData) : bool :=
  match change data with Some _ => true | None => false end.

Definition all_have_change (market_data : MarketData) : bool :=
  forallb (fun x => has_change (snd x)) (items market_data).

(** [l1] is [l2] with some elements left out. *)
Inductive Subseq {A : Type} : list A -> list A -> Prop :=
| Subseq_nil : Subseq [] []
| Subseq_skip x l1 l2 : Subseq l1 l2 -> Subseq l1 (x :: l2)
| Subseq_take x l1 l2 : Subseq l1 l2 -> Subseq (x :: l1) (x :: l2).

(** Pairwise distinct strings, decided. *)
Fixpoint distinct (l : list string) : bool :=
  match l with
  | [] => true
  | x :: l' => negb (existsb (String.eqb x) l') && distinct l'
  end.

(** The sum of the statements, [Σ]. *)
Definition Qsum (l : list Q) : Q := fold_right Qplus 0 l.

(** [market_data[s]['price']] for a listed symbol. *)
Definition price_of (market_data : MarketData) (s : string) : Q :=
  match dict_get market_data s with Some data => price data | None => 0 end.

Definition positive_prices (market_data : MarketData) : bool :=
  forallb (fun x => Qltb 0 (price (snd x))) (items market_data).


(** The keys of a dict after assigning to the keys [l] in turn. *)
Fixpoint keys_after (ks l : list string) : list string :=
  match l with
  | [] => ks
  | s :: l' => keys_after (if existsb (String.eqb s) ks then ks else ks ++ [s]) l'
  end.

(** Two small tables and investors for the worked scenarios: one
    affordable instrument, and an affordable next to an unaffordable one. *)
Definition one_stock : MarketData := [("X", price_only 100)].
Definition two_stocks : MarketData := [("X", price_only 100); ("Y", price_only 600)].
Definition picker (stocks : list string) : Investor :=
  mkInvestor "Player" (CustomStrategy stocks) 1000 [].

(** What one holding adds to the value of a portfolio under a table:
    shares times price when the symbol is listed, nothing otherwise. *)
Definition contribution (market_data : MarketData) (x : string * Z) : Q :=
  match dict_get market_data (fst x) with
  | Some data => price data * inject_Z (snd x)
  | None => 0
  end.

(** The value [calculate_portfolio_return] returns (0 when it raises). *)
Definition percent_return (pf : dict Z) (imd fmd : MarketData) : Q :=
  match calculate_portfolio_return pf imd fmd with
  | (_, Return r) => r
  | (_, Raise _) => 0
  end.

(** The entry an investor contributes to [results]. *)
Definition entry (imd fmd : MarketData) (investor : Investor) : string * Q :=
  (name investor, percent_return (portfolio investor) imd fmd).

(** A dict after the assignments [d[k] = v] for the pairs of [kvs] in turn. *)
Definition dict_update {V} (d : dict V) (kvs : list (string * V)) : dict V :=
  fold_left (fun acc kv => dict_set acc (fst kv) (snd kv)) kvs d.

(** Every held symbol of every investor is listed in the table. *)
Definition holdings_listed (investors : list Investor) (md : MarketData) : Prop :=
  forall investor, In investor investors ->
    incl (keys (portfolio investor)) (keys md).

(** Investors for the worked comparisons: holdings bought from
    [one_stock] resp. [two_stocks], revalued after [X] rose to 120. *)
Definition one_stock_later : MarketData := [("X", price_only 120)].
Definition holder (who : string) (holdings : dict Z) : Investor :=
  mkInvestor who (CustomStrategy (keys holdings)) 0 holdings.

(** [lo <= x <= hi] *)
Definition within (lo x hi : PyFloat) : Prop := fle lo x = true /\ fle x hi = true.

(** ** The console layer

    The functions that talk to the player.  [stdin] is the list of the
    lines still to be read; a dialogue yields the lines it wrote and
    either a failure or a value with the input left over.  Two builtins
    are taken as they come: [float] parses a field, or fails with
    [ValueError] ([None]); [clean] stands for [s.strip().upper()].  The
    two menus call themselves on a wrong choice: [frames] is the number of
    nested entries of a menu that the interpreter's recursion limit
    leaves room for, and the other calls are assumed to fit. *)

Module Console.

Inductive Line : Type :=
| Text (s : string)               (* [print] of a literal *)
| Prompt (s : string)             (* the prompt written by [input] *)
| Core (ev : Event)               (* a line of the functions above *)
| InvalidSymbol (stock : string)  (* "Invalid stock symbol {stock}. Please try again." *)
| PortfolioHeader (who : string)  (* "{name}'s Portfolio:" and the rule under it *)
| Holding (stock : string) (quantity : Z)   (* "{stock}: {quantity} shares" *)
| RemainingBalance (b : Q).       (* "Remaining Balance: ${balance:.2f}" *)

Inductive Failure : Type :=
| EOFError                        (* [input] at the end of the input *)
| RecursionError
| AttributeError                  (* [None.select_stocks] *)
| Uncaught (e : PyError).

Inductive Outcome (A : Type) : Type :=
| Fail (f : Failure)
| Done (a : A) (stdin : list string).
Arguments Fail {A} f.
Arguments Done {A} a stdin.

Definition IO (A : Type) : Type := list string -> list Line * Outcome A.

Definition io_ret {A} (a : A) : IO A := fun stdin => ([], Done a stdin).
Definition io_fail {A} (f : Failure) : IO A := fun _ => ([], Fail f).

Definition io_bind {A B} (m : IO A) (k : A -> IO B) : IO B :=
  fun stdin =>
    match m stdin with
    | (out, Fail f) => (out, Fail f)
    | (out, Done a rest) => let (out', r) := k a rest in (out ++ out', r)
    end.

Notation "x <~ m ;; k" := (io_bind m (fun x => k))
  (at level 61, m at next level, right associativity).
Notation "m ;;~ k" := (io_bind m (fun _ => k))
  (at level 61, right associativity).

(** [print("...")] *)
Definition say (s : string) : IO unit := fun stdin => ([Text s], Done tt stdin).

(** [input(prompt)] *)
Definition input (prompt : string) : IO string :=
  fun stdin =>
    match stdin with
    | [] => ([Prompt prompt], Fail EOFError)
    | line :: rest => ([Prompt prompt], Done line rest)
    end.

(** A call of one of the functions above. *)
Definition lift {A} (m : M A) : IO A :=
  fun stdin =>
    match m with
    | (out, Raise e) => (map Core out, Fail (Uncaught e))
    | (out, Return a) => (map Core out, Done a stdin)
    end.

(** [s.split(sep)] for a one-character separator. *)
Fixpoint split_on (sep : Ascii.ascii) (s : string) : list string :=
  match s with
  | EmptyString => [EmptyString]
  | String c s' =>
      if Ascii.eqb c sep then EmptyString :: split_on sep s'
      else match split_on sep s' with
           | [] => [String c EmptyString]
           | field :: fields => String c field :: fields
           end
  end.

Section Parsing.
Context {F : Type} (float : string -> option F).

(** [list(map(float, fields))]; [None] when a field raises [ValueError]. *)
Fixpoint parse_all (fields : list string) : option (list F) :=
  match fields with
  | [] => Some []
  | field :: fields' =>
      match float field with
      | None => None
      | Some v =>
          match parse_all fields' with
          | None => None
          | Some vs => Some (v :: vs)
          end
      end
  end.

(** The [while True] loops read on, one pass per line of input. *)
Fixpoint get_float_input (prompt : string) (stdin : list string)
  : list Line * Outcome F :=
  match stdin with
  | [] => ([Prompt prompt], Fail EOFError)
  | line :: rest =>
      match float line with
      | Some v => ([Prompt prompt], Done v rest)
      | None =>
          let (out, r) := get_float_input prompt rest in
          (Prompt prompt :: Text "Invalid input, please enter a numeric value." :: out, r)
      end
  end.

Fixpoint safe_float_input (prompt : string) (stdin : list string)
  : list Line * Outcome (list F) :=
  match stdin with
  | [] => ([Prompt prompt], Fail EOFError)
  | input_str :: rest =>
      match parse_all (split_on ","%char input_str) with
      | Some values =>
          if (List.length values =? 2)%nat then ([Prompt prompt], Done values rest)
          else
            let (out, r) := safe_float_input prompt rest in
            (Prompt prompt
             :: Text "Please enter exactly two values separated by a comma." :: out, r)
      | None =>
          let (out, r) := safe_float_input prompt rest in
          (Prompt prompt
           :: Text "Invalid input; please ensure you enter numeric values." :: out, r)
      end
  end.

End Parsing.

(** The loop of [get_player_stocks]; [break] ends it. *)
Fixpoint collect_stocks (market_data : MarketData)
    (stock_list player_stocks : list string) : list Line * list string :=
  match stock_list with
  | [] => ([], player_stocks)
  | stock :: rest =>
      if dict_mem market_data stock then
        if negb (existsb (String.eqb stock) player_stocks)
           && (List.length player_stocks <? 10)%nat
        then collect_stocks market_data rest (player_stocks ++ [stock])
        else if (10 <=? List.length player_stocks)%nat
        then ([Text "Maximum of 10 stocks reached. Additional stocks are ignored."],
              player_stocks)
        else collect_stocks market_data rest player_stocks
      else
        let (out, r) := collect_stocks market_data rest player_stocks in
        (InvalidSymbol stock :: out, r)
  end.

(** [choose_predefined_strategy()] *)
Fixpoint choose_predefined_strategy (frames : nat) : IO Strategy :=
  match frames with
  | O => io_fail RecursionError
  | S frames' =>
      say "Available Strategies:" ;;~
      say "1. Aggressive Strategy" ;;~
      say "2. Conservative Strategy" ;;~
      say "3. Random Strategy" ;;~
      strategy_choice <~ input "Choose a strategy (1-3): " ;;
      if String.eqb strategy_choice "1" then io_ret AggressiveStrategy
      else if String.eqb strategy_choice "2" then io_ret ConservativeStrategy
      else if String.eqb strategy_choice "3" then io_ret RandomStrategy
      else
        say "Invalid choice. Please select a valid strategy." ;;~
        choose_predefined_strategy frames'
  end.

(** [self.display_portfolio()] *)
Definition display_portfolio (self : Investor) : IO unit :=
  fun stdin =>
    (PortfolioHeader (name self)
     :: map (fun x => Holding (fst x) (snd x)) (items (portfolio self))
     ++ [RemainingBalance (balance self)],
     Done tt stdin).

Section Game.
Context (float : string -> option PyFloat) (clean : string -> string).

Definition get_player_stocks (market_data : MarketData) : IO (list string) :=
  say "Enter up to 10 stock symbols, separated by commas (e.g., AAPL, GOOGL, MSFT):" ;;~
  input_string <~ input "Enter stock symbols: " ;;
  let stock_list := map clean (split_on ","%char input_string) in
  fun stdin =>
    let (out, player_stocks) := collect_stocks market_data stock_list [] in
    (out, Done player_stocks stdin).

(** The live [create_custom_strategy(market_data)], prompts included.
    Unpacking a list that has not two elements raises [ValueError]. *)
Definition create_custom_strategy (market_data : MarketData) : IO (option Strategy) :=
  caps <~ safe_float_input float
            "Enter minimum and maximum market cap (in millions), separated by a comma (e.g., 0.1, 500):" ;;
  match caps with
  | [min_market_cap; max_market_cap] =>
      vols <~ safe_float_input float
                "Enter minimum and maximum volatility percentage, separated by a comma (e.g., 10, 50):" ;;
      match vols with
      | [min_volatility; max_volatility] =>
          lift (create_custom_strategy market_data min_market_cap max_market_cap
                  min_volatility max_volatility)
      | _ => io_fail (Uncaught ValueError)
      end
  | _ => io_fail (Uncaught ValueError)
  end.

(** [player_options_menu(market_data)]; its value is [None] when the
    criteria match nothing. *)
Fixpoint player_options_menu (frames : nat) (market_data : MarketData)
  : IO (option Strategy) :=
  match frames with
  | O => io_fail RecursionError
  | S frames' =>
      say "Choose your investment approach:" ;;~
      say "1. Freely choose and input 10 stock symbols" ;;~
      say "2. Choose a predefined strategy" ;;~
      say "3. Create your own strategy based on criteria" ;;~
      choice <~ input "Enter your choice (1, 2, or 3): " ;;
      if String.eqb choice "1" then
        player_stocks <~ get_player_stocks market_data ;;
        io_ret (Some (CustomStrategy player_stocks))
      else if String.eqb choice "2" then
        player_strategy <~ choose_predefined_strategy frames' ;;
        io_ret (Some player_strategy)
      else if String.eqb choice "3" then
        create_custom_strategy market_data
      else
        say "Invalid choice, please select 1, 2, or 3." ;;~
        player_options_menu frames' market_data
  end.

(** The statements at the end of the module, run in order.  Building
    an [Investor] has no effect, so the player is built where it first
    acts; with [None] for a strategy its [invest] fails on
    [self.strategy.select_stocks]. *)
Definition main (frames : nat) : IO unit :=
  player_strategy <~ player_options_menu frames market_data ;;
  investor1 <~ lift (invest (mkInvestor "Alice" AggressiveStrategy 100000 [])
                       market_data) ;;
  investor2 <~ lift (invest (mkInvestor "Bob" ConservativeStrategy 100000 [])
                       market_data) ;;
  player <~ match player_strategy with
            | Some strategy =>
                lift (invest (mkInvestor "Player" strategy 100000 []) market_data)
            | None => io_fail AttributeError
            end ;;
  display_portfolio player ;;~
  display_portfolio investor1 ;;~
  display_portfolio investor2 ;;~
  lift (compare_portfolios [investor1; investor2; player]
          market_data market_data_next_year).

End Game.

(** A line as [safe_float_input] reads it, and the message it answers
    a rejected line with. *)
Definition line_values {F} (float : string -> option F) (line : string)
  : option (list F) :=
  parse_all float (split_on ","%char line).

Definition accepted {F} (float : string -> option F) (line : string) : bool :=
  match line_values float line with
  | Some values => (List.length values =? 2)%nat
  | None => false
  end.

Definition rejection {F} (float : string -> option F) (line : string) : Line :=
  match line_values float line with
  | Some _ => Text "Please enter exactly two values separated by a comma."
  | None => Text "Invalid input; please ensure you enter numeric values."
  end.

(** A string without the character [c]. *)
Fixpoint free_of (c : Ascii.ascii) (s : string) : bool :=
  match s with
  | EmptyString => true
  | String c' s' => negb (Ascii.eqb c' c) && free_of c s'
  end.

End Console.

(** The strategy a menu line names, and what the menus print before
    they read. *)
Definition predefined (choice : string) : option Strategy :=
  if String.eqb choice "1" then Some AggressiveStrategy
  else if String.eqb choice "2" then Some ConservativeStrategy
  else if String.eqb choice "3" then Some RandomStrategy
  else None.

Definition strategy_banner : list Console.Line :=
  [Console.Text "Available Strategies:";
   Console.Text "1. Aggressive Strategy";
   Console.Text "2. Conservative Strategy";
   Console.Text "3. Random Strategy";
   Console.Prompt "Choose a strategy (1-3): "].

(** Two stand-ins for the builtins in the worked runs: a [float] that
    knows the numerals 0 and 1, and a [clean] that leaves its field. *)
Definition float01 (s : string) : option PyFloat :=
  if String.eqb s "0" then Some (Fin 0)
  else if String.eqb s "1" then Some (Fin 1)
  else None.

Definition as_typed (s : string) : string := s.

(** * Properties *)

(** The simulation for the two investors with predefined strategies. *)
Example alice_invests :
  exists alice, invest (mkInvestor "Alice" AggressiveStrategy 100000 []) market_data
                = ([], Return alice)
    /\ keys (portfolio alice)
       = ["AMZN"; "BABA"; "GOOGL"; "INTC"; "ACN"; "AAPL"; "IBM"; "NFLX"; "PYPL"; "PEP"]
    /\ dict_get (portfolio alice) "AMZN" = Some 3%Z
    /\ balance alice == 3298.
Proof. eexists. split; [vm_compute; reflexivity|]. vm_compute. intuition congruence. Qed.

(** ** Reasoning about outcomes *)

Lemma bind_returns {A B} (m : M A) (f : A -> M B) a :
  returns m a -> bind m f = f a.
Proof. unfold returns. intros ->. simpl. now destruct (f a). Qed.

Lemma bind_eq {A B} (m : M A) (f : A -> M B) o1 a o2 r :
  m = (o1, Return a) -> f a = (o2, r) -> bind m f = (o1 ++ o2, r).
Proof. intros -> H. simpl. now rewrite H. Qed.

Lemma bind_raise {A B} (m : M A) (f : A -> M B) o e :
  m = (o, Raise e) -> bind m f = (o, Raise e).
Proof. now intros ->. Qed.

Lemma bind_inv {A B} (m : M A) (f : A -> M B) o b :
  bind m f = (o, Return b) ->
  exists o1 a o2, m = (o1, Return a) /\ f a = (o2, Return b) /\ o = o1 ++ o2.
Proof.
  destruct m as [o1 [e|a]]; simpl; [discriminate|].
  destruct (f a) as [o2 r] eqn:E. intros [= <- ->].
  now exists o1, a, o2.
Qed.

Lemma bind_returns_inv {A B} (m : M A) (f : A -> M B) b :
  returns (bind m f) b -> exists a, returns m a /\ returns (f a) b.
Proof.
  intros H. apply bind_inv in H as (o1 & a & o2 & Hm & Hf & Ho).
  symmetry in Ho. apply app_eq_nil in Ho as [-> ->]. now exists a.
Qed.

Lemma mapM_returns {A B} (f : A -> M B) (g : A -> B) l :
  (forall x, In x l -> returns (f x) (g x)) -> returns (mapM f l) (map g l).
Proof.
  induction l as [|x l IH]; intros H; [reflexivity|].
  simpl. rewrite (bind_returns _ _ (g x)) by (apply H; now left).
  rewrite (bind_returns _ _ (map g l)) by (apply IH; intros; apply H; now right).
  reflexivity.
Qed.

Lemma mapM_returns_inv {A B} (f : A -> M B) l ys :
  returns (mapM f l) ys -> Forall2 (fun x y => returns (f x) y) l ys.
Proof.
  revert ys. induction l as [|x l IH]; simpl; intros ys H.
  - injection H as <-. constructor.
  - apply bind_returns_inv in H as (y & Hy & H).
    apply bind_returns_inv in H as (ys' & Hys & H).
    injection H as <-. constructor; auto.
Qed.

(** The first element on which [f] raises makes the comprehension raise. *)
Lemma mapM_raises {A B} (f : A -> M B) (g : A -> B) l1 x l2 e :
  (forall y, In y l1 -> returns (f y) (g y)) -> f x = ([], Raise e) ->
  mapM f (l1 ++ x :: l2) = ([], Raise e).
Proof.
  intros H Hx. induction l1 as [|y l1 IH]; simpl.
  - now rewrite Hx.
  - rewrite (bind_returns _ _ (g y)) by (apply H; now left).
    rewrite IH by (intros; apply H; now right). reflexivity.
Qed.

(** ** Reasoning about dictionaries *)

Section DictFacts.
Context {V : Type}.
Implicit Types (d : dict V) (k : string) (v : V).

Lemma dict_get_In d k v : dict_get d k = Some v -> In (k, v) d.
Proof.
  induction d as [|[k' v'] d IH]; simpl; [discriminate|].
  destruct (String.eqb_spec k k') as [->|_].
  - intros [= ->]. now left.
  - intros H. right. auto.
Qed.

Lemma In_keys_dict_get d k : In k (keys d) -> exists v, dict_get d k = Some v.
Proof.
  induction d as [|[k' v'] d IH]; simpl; [tauto|].
  intros H. destruct (String.eqb_spec k k') as [->|Hne]; [eauto|].
  destruct H as [H|H]; [congruence|auto].
Qed.

Lemma dict_get_keys d k v : dict_get d k = Some v -> In k (keys d).
Proof.
  intros H. apply dict_get_In in H. now apply (in_map fst) in H.
Qed.

Lemma dict_mem_true d k : dict_mem d k = true <-> In k (keys d).
Proof.
  unfold dict_mem. split.
  - destruct (dict_get d k) eqn:E; [|discriminate].
    intros _. eapply dict_get_keys; eauto.
  - intros H. apply In_keys_dict_get in H as [v ->]. reflexivity.
Qed.

Lemma dict_wf_get d k v : dict_wf d -> In (k, v) d -> dict_get d k = Some v.
Proof.
  unfold dict_wf, keys. induction d as [|[k' v'] d IH]; simpl; [tauto|].
  intros Hnd [H|H].
  - injection H as -> ->. now rewrite String.eqb_refl.
  - inversion Hnd as [|? ? Hnotin Hnd']; subst.
    destruct (String.eqb_spec k k') as [->|_]; [|auto].
    exfalso. apply Hnotin. now apply (in_map fst) in H.
Qed.



Lemma keys_dict_set d k v :
  keys (dict_set d k v) = if dict_mem d k then keys d else keys d ++ [k].
Proof.
  unfold dict_mem, keys. induction d as [|[k' v'] d IH]; simpl; [reflexivity|].
  destruct (String.eqb_spec k k') as [->|Hk]; simpl; [reflexivity|].
  rewrite IH. now destruct (dict_get d k).
Qed.

Lemma dict_wf_set d k v : dict_wf d -> dict_wf (dict_set d k v).
Proof.
  unfold dict_wf. intros H. rewrite keys_dict_set.
  destruct (dict_mem d k) eqn:E; [assumption|].
  apply NoDup_app; [assumption|repeat constructor; simpl; tauto|].
  intros x Hx [<-|[]]. apply dict_mem_true in Hx. congruence.
Qed.
End DictFacts.

(** ** Reasoning about [sorted] *)

Lemma Qltb_lt a b : Qltb a b = true <-> a < b.
Proof.
  unfold Qltb. rewrite negb_true_iff. split.
  - intros H. apply Qnot_le_lt. intros Hle.
    apply Qle_bool_iff in Hle. congruence.
  - intros H. destruct (Qle_bool b a) eqn:E; [|reflexivity].
    apply Qle_bool_iff in E. now apply Qlt_not_le in H.
Qed.

Lemma Qltb_ge a b : Qltb a b = false <-> b <= a.
Proof.
  unfold Qltb. rewrite negb_false_iff. apply Qle_bool_iff.
Qed.

Section SortFacts.
Context {A : Type} (g : A -> Q).

Lemma insert_by_dec x l :
  insert_by (g x) x (map (decorate g) l) = map (decorate g) (insert_key g x l).
Proof.
  induction l as [|y l IH]; simpl; [reflexivity|].
  destruct (Qltb (g y) (g x)); simpl; [now rewrite IH|reflexivity].
Qed.

Lemma isort_dec l : isort (map (decorate g) l) = map (decorate g) (sort_by g l).
Proof.
  induction l as [|x l IH]; simpl; [reflexivity|].
  rewrite IH. apply insert_by_dec.
Qed.

Lemma sorted_returns (key : A -> M Q) l :
  (forall x, In x l -> returns (key x) (g x)) ->
  returns (sorted l key) (sort_by g l).
Proof.
  intros H. unfold sorted.
  rewrite (bind_returns _ _ (map (decorate g) l)).
  - rewrite isort_dec, map_map. simpl. now rewrite map_id.
  - apply mapM_returns. intros x Hx.
    now rewrite (bind_returns _ _ (g x)) by auto.
Qed.

Lemma insert_key_perm x l : Permutation (insert_key g x l) (x :: l).
Proof.
  induction l as [|y l IH]; simpl; [reflexivity|].
  destruct (Qltb (g y) (g x)); [|reflexivity].
  rewrite IH. apply perm_swap.
Qed.

Lemma sort_by_perm l : Permutation (sort_by g l) l.
Proof.
  induction l as [|x l IH]; simpl; [constructor|].
  rewrite insert_key_perm. now constructor.
Qed.

Lemma insert_key_sorted x l :
  StronglySorted (by_key g) l -> StronglySorted (by_key g) (insert_key g x l).
Proof.
  induction 1 as [|y l Hs IH Hall]; simpl.
  - repeat constructor.
  - destruct (Qltb (g y) (g x)) eqn:E.
    + constructor; [assumption|].
      apply (Permutation_Forall (Permutation_sym (insert_key_perm x l))).
      constructor; [|assumption].
      apply Qlt_le_weak. now apply Qltb_lt.
    + apply Qltb_ge in E. constructor; [now constructor|].
      constructor; [assumption|].
      eapply Forall_impl; [|exact Hall].
      intros z Hz. unfold by_key in *. eapply Qle_trans; eassumption.
Qed.

Lemma sort_by_sorted l : StronglySorted (by_key g) (sort_by g l).
Proof.
  induction l; simpl; [constructor|now apply insert_key_sorted].
Qed.

(** Stability: the elements that share a key stay in their order. *)
Lemma insert_key_stable c x l :
  filter (same_key g c) (insert_key g x l) = filter (same_key g c) (x :: l).
Proof.
  induction l as [|y l IH]; simpl; [reflexivity|].
  destruct (Qltb (g y) (g x)) eqn:E; [|reflexivity].
  simpl in *. rewrite IH. unfold same_key.
  destruct (Qeq_bool (g x) c) eqn:Ex; [|reflexivity].
  destruct (Qeq_bool (g y) c) eqn:Ey; [|reflexivity].
  apply Qeq_bool_eq in Ex, Ey. apply Qltb_lt in E.
  rewrite Ex, Ey in E. now apply Qlt_irrefl in E.
Qed.

Lemma sort_by_stable c l :
  filter (same_key g c) (sort_by g l) = filter (same_key g c) l.
Proof.
  induction l as [|x l IH]; simpl; [reflexivity|].
  rewrite insert_key_stable. simpl. now rewrite IH.
Qed.

Lemma sorted_app_inv (l1 l2 : list A) :
  StronglySorted (by_key g) (l1 ++ l2) ->
  StronglySorted (by_key g) l1 /\ forall x y, In x l1 -> In y l2 -> (by_key g) x y.
Proof.
  induction l1 as [|a l1 IH]; simpl; intros H.
  - split; [constructor|intros ? ? []].
  - inversion H as [|? ? Hs Hall]; subst.
    destruct (IH Hs) as [IH1 IH2].
    apply Forall_app in Hall as [Ha1 Ha2]. split.
    + now constructor.
    + intros x y [<-|Hx] Hy; [|auto].
      rewrite Forall_forall in Ha2. auto.
Qed.

Lemma firstn_sort_by_ranked n l : ranked_prefix g n l (firstn n (sort_by g l)).
Proof.
  pose proof (firstn_skipn n (sort_by g l)) as Hsplit.
  pose proof (sort_by_sorted l) as Hs. rewrite <- Hsplit in Hs.
  apply sorted_app_inv in Hs as [Hs1 Hs2].
  repeat split.
  - rewrite length_firstn. now rewrite (Permutation_length (sort_by_perm l)).
  - intros x Hx. apply (Permutation_in _ (sort_by_perm l)).
    rewrite <- Hsplit. apply in_or_app. now left.
  - exact Hs1.
  - intros c. exists (filter (same_key g c) (skipn n (sort_by g l))).
    now rewrite <- filter_app, Hsplit, sort_by_stable.
  - intros x y Hx Hy Hny. apply Hs2; [assumption|].
    apply (Permutation_in _ (Permutation_sym (sort_by_perm l))) in Hy.
    rewrite <- Hsplit in Hy. apply in_app_or in Hy as [Hy|Hy]; tauto.
Qed.

Lemma firstn_sort_by_NoDup {B} (f : A -> B) n l :
  NoDup (map f l) -> NoDup (map f (firstn n (sort_by g l))).
Proof.
  intros H.
  apply (Permutation_NoDup (Permutation_map f (Permutation_sym (sort_by_perm l)))) in H.
  rewrite <- (firstn_skipn n (sort_by g l)), map_app in H.
  now apply NoDup_app_remove_r in H.
Qed.
End SortFacts.

Lemma distinct_NoDup l : distinct l = true -> NoDup l.
Proof.
  induction l as [|x l IH]; simpl; [constructor|].
  intros H. apply andb_true_iff in H as [Hx Hl]. constructor; [|auto].
  intros Hin. apply negb_true_iff in Hx.
  assert (existsb (String.eqb x) l = true); [|congruence].
  apply existsb_exists. exists x. split; [assumption|apply String.eqb_refl].
Qed.

Lemma insert_by_perm {A} k (x : A) l : Permutation (insert_by k x l) ((k, x) :: l).
Proof.
  induction l as [|[k' y] l IH]; simpl; [reflexivity|].
  destruct (Qltb k' k); [|reflexivity].
  rewrite IH. apply perm_swap.
Qed.

Lemma isort_perm {A} (l : list (Q * A)) : Permutation (isort l) l.
Proof.
  induction l as [|[k x] l IH]; simpl; [constructor|].
  rewrite insert_by_perm. now constructor.
Qed.

(** Whatever the key function, [sorted] rearranges its argument. *)
Lemma sorted_perm {A} (l l' : list A) key :
  returns (sorted l key) l' -> Permutation l' l.
Proof.
  unfold sorted. intros H. apply bind_returns_inv in H as (dl & Hdl & H).
  injection H as <-. apply mapM_returns_inv in Hdl.
  assert (map snd dl = l) as <-.
  { induction Hdl as [|x y l dl Hxy _ IH]; simpl; [reflexivity|].
    apply bind_returns_inv in Hxy as (k & _ & Hy). injection Hy as <-.
    simpl. now rewrite IH. }
  apply Permutation_map, isort_perm.
Qed.

(** ** The strategies *)

Lemma get_change_returns data :
  has_change data = true -> returns (get_change data) (change_of data).
Proof.
  unfold has_change, get_change, change_of. now destruct (change data).
Qed.

Lemma aggressive_select md :
  all_have_change md = true ->
  returns (select_stocks AggressiveStrategy md)
    (map fst (firstn 10 (sort_by (fun x => change_of (snd x)) md))).
Proof.
  intros H. unfold all_have_change, items in H. rewrite forallb_forall in H.
  simpl. rewrite (bind_returns _ _ (sort_by (fun x => change_of (snd x)) md)).
  - reflexivity.
  - apply sorted_returns. intros x Hx. apply get_change_returns. auto.
Qed.

Lemma conservative_select md :
  all_have_change md = true ->
  returns (select_stocks ConservativeStrategy md)
    (map fst (firstn 10 (sort_by (fun x => Qabs (change_of (snd x))) md))).
Proof.
  intros H. unfold all_have_change, items in H. rewrite forallb_forall in H.
  simpl.
  rewrite (bind_returns _ _ (sort_by (fun x => Qabs (change_of (snd x))) md)).
  - reflexivity.
  - apply (sorted_returns (fun x => Qabs (change_of (snd x)))). intros x Hx.
    now rewrite (bind_returns _ _ (change_of (snd x)))
      by (apply get_change_returns; auto).
Qed.

(** Every strategy picks among the symbols of the table it is shown. *)
Lemma select_stocks_present self md symbols :
  returns (select_stocks self md) symbols -> incl symbols (keys md).
Proof.
  destruct self as [| | |stocks]; simpl; intros H.
  - apply bind_returns_inv in H as (l & Hl & H). injection H as <-.
    apply sorted_perm in Hl. intros s Hs. apply in_map_iff in Hs as (x & <- & Hx).
    apply in_map. apply (Permutation_in _ Hl).
    rewrite <- (firstn_skipn 10 l). apply in_or_app. now left.
  - apply bind_returns_inv in H as (l & Hl & H). injection H as <-.
    apply sorted_perm in Hl. intros s Hs. apply in_map_iff in Hs as (x & <- & Hx).
    apply in_map. apply (Permutation_in _ Hl).
    rewrite <- (firstn_skipn 10 l). apply in_or_app. now left.
  - discriminate.
  - injection H as <-. intros s Hs. apply filter_In in Hs as [_ Hs].
    now apply dict_mem_true.
Qed.

Lemma filter_Subseq {A} (f : A -> bool) l : Subseq (filter f l) l.
Proof.
  induction l as [|x l IH]; simpl; [constructor|].
  destruct (f x); now constructor.
Qed.

(** C6 (amended).  [select_stocks] of the Aggressive and of the
    Conservative strategy returns a list, printing nothing, on every
    table in which each instrument carries a [change] attribute, and
    that of the explicit-list strategy does so on every table. *)
Theorem select_stocks_returns_normally (self : Strategy) (md : MarketData) :
  self <> RandomStrategy ->
  (self = AggressiveStrategy \/ self = ConservativeStrategy ->
   all_have_change md = true) ->
  exists symbols, select_stocks self md = ([], Return symbols).
Proof.
  intros Hr Hc. destruct self as [| | |stocks].
  - eexists. apply aggressive_select. auto.
  - eexists. apply conservative_select. auto.
  - congruence.
  - eexists. reflexivity.
Qed.

Lemma select_stocks_returns_normally_witness :
  AggressiveStrategy <> RandomStrategy
  /\ all_have_change market_data = true
  /\ exists symbols, select_stocks AggressiveStrategy market_data = ([], Return symbols).
Proof.
  split; [discriminate|]. split; [reflexivity|].
  apply (select_stocks_returns_normally AggressiveStrategy market_data).
  - discriminate.
  - intros _. reflexivity.
Defined.

(** C6, as stated, fails: on a table whose single instrument has a price
    and nothing else the Aggressive strategy raises [KeyError]. *)
Lemma aggressive_raises_without_change :
  select_stocks AggressiveStrategy [("X", price_only 100)]
  = ([], Raise (KeyError "change")).
Proof. reflexivity. Qed.

(** The Random strategy never gets as far as shuffling. *)
Lemma random_select_raises md :
  select_stocks RandomStrategy md = ([], Raise (NameError "random")).
Proof. reflexivity. Qed.

(** C7 (amended).  The explicit-list strategy returns the supplied
    symbols that are keys of the table, each as often as supplied and in
    the supplied order, and applies no cap of its own: when every
    supplied symbol is in the table the whole list comes back. *)
Theorem custom_select_filters_in_order (stocks : list string) (md : MarketData) :
  exists symbols,
    select_stocks (CustomStrategy stocks) md = ([], Return symbols)
    /\ (forall s, In s symbols <-> In s stocks /\ In s (keys md))
    /\ Subseq symbols stocks
    /\ (forall s, In s (keys md) ->
          count_occ string_dec symbols s = count_occ string_dec stocks s)
    /\ (incl stocks (keys md) -> symbols = stocks).
Proof.
  eexists. split; [reflexivity|]. split; [|split; [|split]].
  - intros s. rewrite filter_In, dict_mem_true. tauto.
  - apply filter_Subseq.
  - intros s Hs. apply dict_mem_true in Hs.
    induction stocks as [|x l IH]; simpl; [reflexivity|].
    destruct (dict_mem md x) eqn:E; simpl.
    + destruct (string_dec x s); now rewrite IH.
    + destruct (string_dec x s) as [->|_]; [congruence|assumption].
  - intros Hincl. induction stocks as [|x l IH]; simpl; [reflexivity|].
    assert (dict_mem md x = true) as -> by (apply dict_mem_true, Hincl; now left).
    f_equal. apply IH. intros y Hy. apply Hincl. now right.
Qed.

(** C7, as stated, fails: eleven supplied symbols, all in the table, all
    come back. *)
Lemma custom_select_exceeds_ten :
  exists symbols,
    select_stocks
      (CustomStrategy ["AAPL"; "GOOGL"; "MSFT"; "AMZN"; "FB"; "NFLX"; "TSLA";
                       "BABA"; "V"; "MA"; "INTC"]) market_data
    = ([], Return symbols)
    /\ List.length symbols = 11%nat.
Proof. eexists. split; reflexivity. Qed.

(** C8 (amended).  On a table in which every instrument carries a
    [change] attribute, the Aggressive and the Conservative strategy each
    return at most 10 symbols, all keys of the table and pairwise
    distinct; they are the first ten (or all, if fewer) instruments in
    ascending order of [change], respectively of [abs(change)],
    instruments of equal key standing in the table's insertion order. *)
Theorem sorting_strategies_ranked (md : MarketData) :
  dict_wf md -> all_have_change md = true ->
  exists aggressive conservative : list (string * StockData),
    select_stocks AggressiveStrategy md = ([], Return (map fst aggressive))
    /\ select_stocks ConservativeStrategy md = ([], Return (map fst conservative))
    /\ ranked_prefix (fun x => change_of (snd x)) 10 md aggressive
    /\ ranked_prefix (fun x => Qabs (change_of (snd x))) 10 md conservative
    /\ (List.length aggressive <= 10)%nat
    /\ (List.length conservative <= 10)%nat
    /\ NoDup (map fst aggressive)
    /\ NoDup (map fst conservative).
Proof.
  intros Hwf Hc.
  exists (firstn 10 (sort_by (fun x => change_of (snd x)) md)),
         (firstn 10 (sort_by (fun x => Qabs (change_of (snd x))) md)).
  split; [now apply aggressive_select|].
  split; [now apply conservative_select|].
  split; [apply firstn_sort_by_ranked|].
  split; [apply firstn_sort_by_ranked|].
  split; [apply firstn_le_length|].
  split; [apply firstn_le_length|].
  split; now apply firstn_sort_by_NoDup.
Qed.

Lemma sorting_strategies_ranked_witness :
  dict_wf market_data
  /\ all_have_change market_data = true
  /\ exists aggressive conservative : list (string * StockData),
    select_stocks AggressiveStrategy market_data = ([], Return (map fst aggressive))
    /\ select_stocks ConservativeStrategy market_data
       = ([], Return (map fst conservative))
    /\ ranked_prefix (fun x => change_of (snd x)) 10 market_data aggressive
    /\ ranked_prefix (fun x => Qabs (change_of (snd x))) 10 market_data conservative
    /\ (List.length aggressive <= 10)%nat
    /\ (List.length conservative <= 10)%nat
    /\ NoDup (map fst aggressive)
    /\ NoDup (map fst conservative).
Proof.
  assert (dict_wf market_data) as Hwf by (apply distinct_NoDup; reflexivity).
  split; [exact Hwf|]. split; [reflexivity|].
  apply (sorting_strategies_ranked market_data Hwf). reflexivity.
Defined.

(** C8, as stated, fails: the later table is non-empty and carries
    prices only, and both strategies raise [KeyError] on it. *)
Lemma sorting_strategies_raise_on_price_only :
  market_data_next_year <> []
  /\ select_stocks AggressiveStrategy market_data_next_year
     = ([], Raise (KeyError "change"))
  /\ select_stocks ConservativeStrategy market_data_next_year
     = ([], Raise (KeyError "change")).
Proof. split; [discriminate|]. split; reflexivity. Qed.

(** ** Allocation *)

Lemma py_div_returns a b : ~ b == 0 -> returns (py_div a b) (a / b).
Proof.
  intros H. unfold py_div. destruct (Qeq_bool b 0) eqn:E; [|reflexivity].
  now apply Qeq_bool_eq in E.
Qed.





Lemma existsb_eqb_In s ks : existsb (String.eqb s) ks = true <-> In s ks.
Proof.
  rewrite existsb_exists. split.
  - intros (x & Hx & E). apply String.eqb_eq in E. now subst.
  - intros H. exists s. split; [assumption|apply String.eqb_refl].
Qed.



Lemma listed_price md s :
  positive_prices md = true -> In s (keys md) ->
  exists data, dict_get md s = Some data /\ price_of md s = price data
               /\ 0 < price data.
Proof.
  intros Hp Hs. apply In_keys_dict_get in Hs as [data Hd]. exists data.
  unfold price_of. rewrite Hd. repeat split.
  unfold positive_prices, items in Hp. rewrite forallb_forall in Hp.
  apply dict_get_In in Hd. apply Hp in Hd. now apply Qltb_lt in Hd.
Qed.

Lemma buy_returns md amount self s :
  positive_prices md = true -> In s (keys md) ->
  buy md amount self s
  = ([], Return {| name := name self;
                   strategy := strategy self;
                   balance := balance self
                              - inject_Z (py_int (amount / price_of md s))
                                * price_of md s;
                   portfolio := dict_set (portfolio self) s
                                  (py_int (amount / price_of md s)) |}).
Proof.
  intros Hp Hs. destruct (listed_price md s Hp Hs) as (data & Hd & -> & Hpos).
  unfold buy, getitem. rewrite Hd.
  rewrite (bind_returns _ _ data) by reflexivity.
  rewrite (bind_returns _ _ (amount / price data)); [reflexivity|].
  apply py_div_returns. intros E. rewrite E in Hpos. now apply Qlt_irrefl in Hpos.
Qed.

(** The loop of [invest] over symbols of the table. *)
Lemma invest_loop md amount symbols :
  positive_prices md = true -> incl symbols (keys md) ->
  forall self, exists self',
    foldM (buy md amount) symbols self = ([], Return self')
    /\ balance self'
       == balance self
          - Qsum (map (fun s => inject_Z (py_int (amount / price_of md s))
                                * price_of md s) symbols)
    /\ portfolio self'
       = fold_left (fun pf s => dict_set pf s (py_int (amount / price_of md s)))
           symbols (portfolio self).
Proof.
  intros Hp. induction symbols as [|s l IH]; intros Hin self.
  - exists self. split; [reflexivity|]. split; [simpl; lra|reflexivity].
  - cbn [foldM]. rewrite buy_returns by (auto; apply Hin; now left).
    match goal with |- context [bind ([], Return ?x) _] => set (self1 := x) end.
    destruct (IH (fun x Hx => Hin x (or_intror Hx)) self1)
      as (self' & Hrun & Hbal & Hpf).
    exists self'. split; [|split].
    + now rewrite (bind_returns _ _ self1) by reflexivity.
    + rewrite Hbal. subst self1. cbn [balance map Qsum fold_right].
      fold (Qsum (map (fun s0 => inject_Z (py_int (amount / price_of md s0))
                                 * price_of md s0) l)).
      lra.
    + rewrite Hpf. reflexivity.
Qed.

Lemma amount_per_stock_returns b (symbols : list string) :
  symbols <> [] ->
  returns (py_div b (inject_Z (Z.of_nat (List.length symbols))))
          (b / inject_Z (Z.of_nat (List.length symbols)))
  /\ inject_Z (Z.of_nat (List.length symbols))
     * (b / inject_Z (Z.of_nat (List.length symbols))) == b
  /\ 0 < inject_Z (Z.of_nat (List.length symbols)).
Proof.
  intros Hne.
  assert (0 < inject_Z (Z.of_nat (List.length symbols))) as Hpos.
  { change 0 with (inject_Z 0). rewrite <- Zlt_Qlt.
    destruct symbols; [congruence|simpl; lia]. }
  assert (~ inject_Z (Z.of_nat (List.length symbols)) == 0) as Hnz.
  { intros E. rewrite E in Hpos. now apply Qlt_irrefl in Hpos. }
  split; [now apply py_div_returns|]. split; [|assumption].
  now field.
Qed.

(** [invest] over a non-empty selection, in the terms of the code. *)
Lemma invest_runs self md symbols :
  positive_prices md = true ->
  select_stocks (strategy self) md = ([], Return symbols) -> symbols <> [] ->
  exists self',
    invest self md = ([], Return self')
    /\ invest self md
       = foldM (buy md (balance self / inject_Z (Z.of_nat (List.length symbols))))
           symbols self
    /\ balance self'
       == balance self
          - Qsum (map (fun s =>
                inject_Z (py_int (balance self
                                  / inject_Z (Z.of_nat (List.length symbols))
                                  / price_of md s))
                * price_of md s) symbols)
    /\ portfolio self'
       = fold_left (fun pf s =>
           dict_set pf s (py_int (balance self
                                  / inject_Z (Z.of_nat (List.length symbols))
                                  / price_of md s)))
           symbols (portfolio self).
Proof.
  intros Hp Hsel Hne.
  pose proof (select_stocks_present _ _ _ Hsel) as Hin.
  destruct (amount_per_stock_returns (balance self) symbols Hne) as (Hdiv & _ & _).
  assert (invest self md
          = foldM (buy md (balance self / inject_Z (Z.of_nat (List.length symbols))))
              symbols self) as Hinv.
  { unfold invest. rewrite (bind_returns _ _ symbols) by exact Hsel.
    destruct (Nat.eqb_spec (List.length symbols) 0) as [E|_].
    - destruct symbols; [congruence|discriminate].
    - now rewrite (bind_returns _ _ _ Hdiv). }
  destruct (invest_loop md (balance self / inject_Z (Z.of_nat (List.length symbols)))
              symbols Hp Hin self) as (self' & Hrun & Hbal & Hpf).
  exists self'. rewrite Hinv. auto.
Qed.








(** ** Valuation *)

Lemma fold_left_Qplus l a : fold_left Qplus l a == a + Qsum l.
Proof.
  revert a. induction l as [|x l IH]; intros a; simpl.
  - lra.
  - rewrite IH. fold (Qsum l). lra.
Qed.

Lemma py_sum_Qsum l : py_sum l == Qsum l.
Proof. unfold py_sum. rewrite fold_left_Qplus. lra. Qed.

Lemma term_returns md (x : string * Z) :
  In (fst x) (keys md) ->
  returns (data <- getitem md (fst x) ;; ret (price data * inject_Z (snd x)))
          (contribution md x).
Proof.
  intros H. apply In_keys_dict_get in H as [data Hd].
  unfold getitem, contribution. now rewrite Hd.
Qed.

Lemma term_raises md (x : string * Z) :
  ~ In (fst x) (keys md) ->
  (data <- getitem md (fst x) ;; ret (price data * inject_Z (snd x)))
  = ([], Raise (KeyError (fst x))).
Proof.
  intros H. unfold getitem. destruct (dict_get md (fst x)) eqn:E; [|reflexivity].
  apply dict_get_keys in E. tauto.
Qed.

Lemma Qsum_present md (pf : list (string * Z)) :
  Qsum (map (contribution md) (filter (fun x => dict_mem md (fst x)) pf))
  == Qsum (map (contribution md) pf).
Proof.
  induction pf as [|x pf IH]; simpl; [reflexivity|].
  destruct (dict_mem md (fst x)) eqn:E; simpl.
  - fold (Qsum (map (contribution md) pf)). now rewrite <- IH.
  - fold (Qsum (map (contribution md) pf)). rewrite <- IH.
    unfold contribution at 2. unfold dict_mem in E.
    destruct (dict_get md (fst x)); [discriminate|]. lra.
Qed.

Lemma final_value_returns pf fmd :
  exists v, final_value pf fmd = ([], Return v)
            /\ v == Qsum (map (contribution fmd) (items pf)).
Proof.
  eexists. split.
  - unfold final_value. rewrite (bind_returns _ _
      (map (contribution fmd) (filter (fun x => dict_mem fmd (fst x)) (items pf)))).
    + reflexivity.
    + apply mapM_returns. intros x Hx. apply filter_In in Hx as [_ Hx].
      apply term_returns. now apply dict_mem_true.
  - rewrite py_sum_Qsum. apply Qsum_present.
Qed.

Lemma initial_value_returns pf imd :
  incl (keys pf) (keys imd) ->
  exists v, initial_value pf imd = ([], Return v)
            /\ v == Qsum (map (contribution imd) (items pf)).
Proof.
  intros H. eexists. split.
  - unfold initial_value.
    rewrite (bind_returns _ _ (map (contribution imd) (items pf))).
    + reflexivity.
    + apply mapM_returns. intros x Hx. apply term_returns, H.
      now apply (in_map fst) in Hx.
  - apply py_sum_Qsum.
Qed.

(** The first holding whose symbol a table does not list. *)
Lemma first_unlisted (pf : dict Z) (md : MarketData) s :
  In s (keys pf) -> ~ In s (keys md) ->
  exists l1 x l2,
    pf = l1 ++ x :: l2 /\ incl (keys l1) (keys md) /\ ~ In (fst x) (keys md).
Proof.
  induction pf as [|y pf IH]; simpl; [tauto|]. intros Hs Hn.
  destruct (in_dec string_dec (fst y) (keys md)) as [Hy|Hy].
  - destruct Hs as [Hs|Hs]; [congruence|].
    destruct (IH Hs Hn) as (l1 & x & l2 & -> & Hl1 & Hx).
    exists (y :: l1), x, l2. repeat split; [|assumption].
    intros k [<-|Hk]; auto.
  - exists [], y, pf. repeat split; [|assumption]. intros k [].
Qed.

Lemma initial_value_raises pf imd s :
  In s (keys pf) -> ~ In s (keys imd) ->
  exists k, In k (keys pf) /\ ~ In k (keys imd)
            /\ initial_value pf imd = ([], Raise (KeyError k)).
Proof.
  intros Hs Hn.
  destruct (first_unlisted pf imd s Hs Hn) as (l1 & x & l2 & -> & Hl1 & Hx).
  exists (fst x). split; [|split; [assumption|]].
  - unfold keys. rewrite map_app. apply in_or_app. right. now left.
  - unfold initial_value, items.
    rewrite (mapM_raises _ (contribution imd) l1 x l2 (KeyError (fst x))).
    + reflexivity.
    + intros y Hy. apply term_returns, Hl1. now apply (in_map fst) in Hy.
    + now apply term_raises.
Qed.

(** C4 (amended).  Against the final table the value of a holdings map
    is the sum of shares times price over the held symbols the table
    lists, an unlisted symbol adding 0 and nothing being raised.  Against
    the initial table the value is that sum only when the table lists
    every held symbol; a held symbol the initial table does not list
    makes the valuation, and the return calculation with it, raise
    [KeyError]. *)
Theorem portfolio_values (pf : dict Z) (imd fmd : MarketData) :
  (exists v, final_value pf fmd = ([], Return v)
             /\ v == Qsum (map (contribution fmd) (items pf)))
  /\ (incl (keys pf) (keys imd) ->
      exists v, initial_value pf imd = ([], Return v)
                /\ v == Qsum (map (contribution imd) (items pf)))
  /\ (forall s, In s (keys pf) -> ~ In s (keys imd) ->
      exists k, In k (keys pf) /\ ~ In k (keys imd)
                /\ initial_value pf imd = ([], Raise (KeyError k))
                /\ calculate_portfolio_return pf imd fmd = ([], Raise (KeyError k))).
Proof.
  split; [apply final_value_returns|]. split; [apply initial_value_returns|].
  intros s Hs Hn. destruct (initial_value_raises pf imd s Hs Hn) as (k & H1 & H2 & H3).
  exists k. repeat split; try assumption.
  unfold calculate_portfolio_return. now rewrite H3.
Qed.

(** C4, as stated, fails for the initial table: a held symbol it does
    not list raises [KeyError] instead of counting for 0. *)
Lemma initial_value_unlisted_symbol_raises :
  initial_value [("X", 10%Z); ("Z", 1%Z)] one_stock = ([], Raise (KeyError "Z"))
  /\ calculate_portfolio_return [("X", 10%Z); ("Z", 1%Z)] one_stock one_stock
     = ([], Raise (KeyError "Z"))
  /\ final_value [("X", 10%Z); ("Z", 1%Z)] one_stock = ([], Return 1000).
Proof. repeat split. Qed.

(** C5 (amended).  When the initial value is 0 the return calculation
    returns exactly 0 and prints the "initial portfolio value is zero"
    line; that printed line is the only signal, being printed in this
    case and in no other.  Otherwise the calculation prints nothing and
    returns [(final - initial) / initial * 100]. *)
Theorem zero_baseline_signalled_by_print
    (pf : dict Z) (imd fmd : MarketData) (initial : Q) :
  initial_value pf imd = ([], Return initial) ->
  exists final,
    final_value pf fmd = ([], Return final)
    /\ (initial == 0 ->
        calculate_portfolio_return pf imd fmd = ([InitialValueZero], Return 0))
    /\ (~ initial == 0 ->
        calculate_portfolio_return pf imd fmd
        = ([], Return ((final - initial) / initial * 100))).
Proof.
  intros Hi. destruct (final_value_returns pf fmd) as (final & Hf & _).
  exists final. split; [exact Hf|].
  unfold calculate_portfolio_return. rewrite Hi, Hf. simpl.
  split; intros H.
  - apply Qeq_eq_bool in H. now rewrite H.
  - destruct (Qeq_bool initial 0) eqn:E; [now apply Qeq_bool_eq in E|].
    unfold py_div. now rewrite E.
Qed.

Lemma zero_baseline_signalled_by_print_witness :
  initial_value [] one_stock = ([], Return 0)
  /\ exists final,
    final_value [] one_stock = ([], Return final)
    /\ (0 == 0 ->
        calculate_portfolio_return [] one_stock one_stock
        = ([InitialValueZero], Return 0))
    /\ (~ 0 == 0 ->
        calculate_portfolio_return [] one_stock one_stock
        = ([], Return ((final - 0) / 0 * 100))).
Proof.
  split; [reflexivity|].
  apply (zero_baseline_signalled_by_print [] one_stock one_stock 0). reflexivity.
Defined.

(** C5, as stated, fails: an investor who bought nothing and one whose
    holding kept its price get the same returned value; the caller is
    handed no flag that tells them apart. *)
Lemma zero_baseline_same_returned_value :
  exists r0 r1,
    initial_value [] one_stock = ([], Return 0)
    /\ snd (calculate_portfolio_return [] one_stock one_stock) = Return r0
    /\ initial_value [("X", 10%Z)] one_stock = ([], Return 1000)
    /\ snd (calculate_portfolio_return [("X", 10%Z)] one_stock one_stock) = Return r1
    /\ r0 == r1.
Proof. do 2 eexists. repeat split. Qed.

(** ** Comparison *)

Section DictUpdate.
Context {V : Type}.
Implicit Types (d : dict V) (kvs : list (string * V)).


Lemma dict_update_wf kvs : forall d, dict_wf d -> dict_wf (dict_update d kvs).
Proof.
  induction kvs as [|kv kvs IH]; intros d H; [assumption|].
  apply IH. now apply dict_wf_set.
Qed.



Lemma keys_dict_update kvs k :
  forall d, In k (keys (dict_update d kvs)) <-> In k (keys d) \/ In k (map fst kvs).
Proof.
  induction kvs as [|kv kvs IH]; intros d; simpl; [tauto|].
  fold (dict_update (dict_set d (fst kv) (snd kv)) kvs).
  rewrite IH, keys_dict_set.
  destruct (dict_mem d (fst kv)) eqn:E.
  - apply dict_mem_true in E. intuition (subst; auto).
  - rewrite in_app_iff. simpl. intuition (subst; auto).
Qed.


End DictUpdate.

(** [max] keeps the first of the greatest. *)
Lemma max_from_spec l : forall b,
  exists l1 l2,
    b :: l = l1 ++ max_from b l :: l2
    /\ (forall y, In y l1 -> snd y < snd (max_from b l))
    /\ (forall y, In y l2 -> snd y <= snd (max_from b l)).
Proof.
  induction l as [|x l IH]; intros b.
  - exists [], []. repeat split; intros y [].
  - cbn [max_from]. destruct (Qltb (snd b) (snd x)) eqn:E.
    + apply Qltb_lt in E. destruct (IH x) as (l1 & l2 & Heq & H1 & H2).
      exists (b :: l1), l2. split; [now rewrite Heq|]. split; [|assumption].
      intros y [<-|Hy]; [|auto].
      destruct l1 as [|z l1]; simpl in Heq; injection Heq as Hx _.
      * now rewrite <- Hx.
      * eapply Qlt_trans; [exact E|]. apply H1. left. congruence.
    + apply Qltb_ge in E. destruct (IH b) as (l1 & l2 & Heq & H1 & H2).
      destruct l1 as [|z l1]; simpl in Heq; injection Heq as Hb Hl.
      * exists [], (x :: l). split; [simpl; congruence|].
        split; [intros y []|]. rewrite <- Hb.
        intros y [<-|Hy]; [assumption|]. rewrite Hb. apply H2. now rewrite <- Hl.
      * subst z. exists (b :: x :: l1), l2. split; [simpl; congruence|].
        split; [|assumption].
        intros y [<-|[<-|Hy]].
        -- apply H1. now left.
        -- eapply Qle_lt_trans; [exact E|]. apply H1. now left.
        -- apply H1. now right.
Qed.

Lemma calculate_returns pf imd fmd :
  incl (keys pf) (keys imd) ->
  exists out,
    calculate_portfolio_return pf imd fmd = (out, Return (percent_return pf imd fmd)).
Proof.
  intros H. destruct (initial_value_returns pf imd H) as (v & Hv & _).
  destruct (final_value_returns pf fmd) as (f & Hf & _).
  unfold percent_return, calculate_portfolio_return. rewrite Hv, Hf. simpl.
  unfold py_div. destruct (Qeq_bool v 0); simpl; eauto.
Qed.

(** The loop of [compare_portfolios]. *)
Lemma compare_loop imd fmd investors :
  holdings_listed investors imd ->
  forall acc, exists out,
    foldM (compare_step imd fmd) investors acc
    = (out, Return (dict_update acc (map (entry imd fmd) investors)))
    /\ forall investor, In investor investors ->
         In (PortfolioReturn (name investor)
               (percent_return (portfolio investor) imd fmd)) out.
Proof.
  induction investors as [|inv l IH]; intros Hl acc.
  - exists []. split; [reflexivity|intros ? []].
  - destruct (calculate_returns (portfolio inv) imd fmd) as [o Ho];
      [apply Hl; now left|].
    destruct (IH (fun i Hi => Hl i (or_intror Hi))
                (dict_set acc (name inv) (percent_return (portfolio inv) imd fmd)))
      as (out & Hout & Hprinted).
    exists ((o ++ [PortfolioReturn (name inv)
                     (percent_return (portfolio inv) imd fmd)]) ++ out).
    split.
    + cbn [foldM]. eapply bind_eq; [|exact Hout].
      unfold compare_step. eapply bind_eq; [exact Ho|]. reflexivity.
    + intros i [<-|Hi].
      * apply in_or_app. left. apply in_or_app. right. now left.
      * apply in_or_app. right. auto.
Qed.

(** What [compare_portfolios] does once the mapping is built. *)
Lemma compare_portfolios_runs investors imd fmd :
  investors <> [] -> holdings_listed investors imd ->
  exists out results l1 best l2,
    compare_results investors imd fmd = (out, Return results)
    /\ results = dict_update [] (map (entry imd fmd) investors)
    /\ (forall investor, In investor investors ->
          In (PortfolioReturn (name investor)
                (percent_return (portfolio investor) imd fmd)) out)
    /\ compare_portfolios investors imd fmd
       = (out ++ [BestPerformer (fst best) (snd best)], Return tt)
    /\ results = l1 ++ best :: l2
    /\ (forall y, In y l1 -> snd y < snd best)
    /\ (forall y, In y l2 -> snd y <= snd best).
Proof.
  intros Hne Hl. destruct (compare_loop imd fmd investors Hl []) as (out & Hout & Hpr).
  set (results := dict_update [] (map (entry imd fmd) investors)) in *.
  assert (dict_wf results) as Hwf by (apply dict_update_wf; constructor).
  destruct results as [|x l] eqn:Hres.
  { exfalso. destruct investors as [|inv l]; [congruence|].
    assert (In (name inv) (keys results)) as Hin.
    { apply keys_dict_update. right. simpl. now left. }
    now rewrite Hres in Hin. }
  destruct (max_from_spec l x) as (l1 & l2 & Heq & H1 & H2).
  exists out, (x :: l), l1, (max_from x l), l2.
  split; [exact Hout|]. split; [reflexivity|]. split; [exact Hpr|].
  split; [|now split].
  unfold compare_portfolios. eapply bind_eq; [exact Hout|].
  unfold py_max_key, items.
  rewrite (bind_returns _ _ (fst (max_from x l))) by reflexivity.
  unfold getitem. rewrite (dict_wf_get (x :: l) (fst (max_from x l)) (snd (max_from x l))).
  - reflexivity.
  - exact Hwf.
  - rewrite <- surjective_pairing, Heq. apply in_or_app. right. now left.
Qed.






(** The run behind the witness: both Ann lines are printed, the mapping
    keeps the second Ann's 0 under the first Ann's place, and Bob wins
    although the first Ann's 20 equals his. *)
Example duplicate_names_run :
  exists r_ann r_ann' r_bob,
    compare_portfolios
      [holder "Ann" [("X", 10%Z)]; holder "Ann" []; holder "Bob" [("X", 5%Z)]]
      one_stock one_stock_later
    = ([PortfolioReturn "Ann" r_ann; InitialValueZero; PortfolioReturn "Ann" r_ann';
        PortfolioReturn "Bob" r_bob; BestPerformer "Bob" r_bob], Return tt)
    /\ r_ann == 20 /\ r_ann' == 0 /\ r_bob == 20.
Proof. do 3 eexists. split; [reflexivity|]. repeat split. Qed.

(** ** The criteria-based strategy *)

Lemma meets_criteria_within lo_cap hi_cap lo_vol hi_vol data :
  meets_criteria lo_cap hi_cap lo_vol hi_vol data = true
  <-> within lo_cap (get_or_inf (market_cap data)) hi_cap
      /\ within lo_vol (get_or_inf (volatility data)) hi_vol.
Proof.
  unfold meets_criteria, within. rewrite !andb_true_iff. tauto.
Qed.


Lemma custom_select_listed (symbols : list string) md :
  incl symbols (keys md) ->
  select_stocks (CustomStrategy symbols) md = ([], Return symbols).
Proof.
  intros H. simpl. unfold ret. do 2 f_equal.
  induction symbols as [|s l IH]; simpl; [reflexivity|].
  assert (dict_mem md s = true) as -> by (apply dict_mem_true, H; now left).
  f_equal. apply IH. intros y Hy. apply H. now right.
Qed.



(** Under infinite upper bounds the same instrument qualifies. *)
Example criteria_include_under_infinite_bounds :
  create_custom_strategy one_stock (Fin 0) PosInf (Fin 0) PosInf
  = ([SelectedStocks ["X"]], Return (Some (CustomStrategy ["X"]))).
Proof. reflexivity. Qed.

(** * Further properties of the core *)

(** ** When the sorting strategies fail *)

Lemma first_without_change (md : MarketData) :
  all_have_change md = false ->
  exists l1 x l2,
    md = l1 ++ x :: l2
    /\ (forall y, In y l1 -> has_change (snd y) = true)
    /\ change (snd x) = None.
Proof.
  unfold all_have_change, items. induction md as [|y md IH]; simpl; [discriminate|].
  destruct (has_change (snd y)) eqn:E; simpl.
  - intros H. destruct (IH H) as (l1 & x & l2 & -> & Hl1 & Hx).
    exists (y :: l1), x, l2. repeat split; [|assumption].
    intros z [<-|Hz]; auto.
  - intros _. exists [], y, md. repeat split; [intros z []|].
    unfold has_change in E. now destruct (change (snd y)).
Qed.

Lemma sorted_raises {A} (l1 : list A) x l2 (key : A -> M Q) (g : A -> Q) e :
  (forall y, In y l1 -> returns (key y) (g y)) -> key x = ([], Raise e) ->
  sorted (l1 ++ x :: l2) key = ([], Raise e).
Proof.
  intros H Hx. unfold sorted.
  rewrite (mapM_raises _ (decorate g) l1 x l2 e); [reflexivity| |].
  - intros y Hy. now rewrite (bind_returns _ _ (g y)) by auto.
  - now rewrite Hx.
Qed.

(** X1.  The Aggressive and the Conservative strategy raise
    [KeyError('change')] exactly on the tables in which some instrument
    has no [change] attribute. *)
Theorem sorting_strategies_raise_iff_change_missing (md : MarketData) :
  (all_have_change md = false
   <-> select_stocks AggressiveStrategy md = ([], Raise (KeyError "change")))
  /\ (all_have_change md = false
      <-> select_stocks ConservativeStrategy md = ([], Raise (KeyError "change"))).
Proof.
  split; split.
  - intros H. destruct (first_without_change md H) as (l1 & x & l2 & -> & Hl1 & Hx).
    simpl. unfold items.
    rewrite (sorted_raises l1 x l2 _ (fun y => change_of (snd y)) (KeyError "change"));
      [reflexivity| |].
    + intros y Hy. apply get_change_returns. auto.
    + unfold get_change. now rewrite Hx.
  - intros H. destruct (all_have_change md) eqn:E; [|reflexivity].
    rewrite (aggressive_select md E) in H. discriminate.
  - intros H. destruct (first_without_change md H) as (l1 & x & l2 & -> & Hl1 & Hx).
    simpl. unfold items.
    rewrite (sorted_raises l1 x l2 _ (fun y => Qabs (change_of (snd y)))
               (KeyError "change")); [reflexivity| |].
    + intros y Hy.
      now rewrite (bind_returns _ _ (change_of (snd y)))
        by (apply get_change_returns; auto).
    + unfold get_change. now rewrite Hx.
  - intros H. destruct (all_have_change md) eqn:E; [|reflexivity].
    rewrite (conservative_select md E) in H. discriminate.
Qed.

(** ** More on [invest] *)

(** X2.  [invest] prints "No valid stocks to invest in." exactly when
    the strategy selected nothing, and then leaves the investor as it
    was; after a non-empty selection it prints nothing. *)
Theorem invest_no_op_iff_empty_selection
    (self : Investor) (md : MarketData) (symbols : list string) :
  positive_prices md = true ->
  select_stocks (strategy self) md = ([], Return symbols) ->
  (symbols = [] -> invest self md = ([NoValidStocks], Return self))
  /\ (symbols <> [] -> fst (invest self md) = []).
Proof.
  intros Hp Hsel. split.
  - intros ->. unfold invest. now rewrite (bind_returns _ _ [] Hsel).
  - intros Hne. destruct (invest_runs self md symbols Hp Hsel Hne) as (self' & -> & _).
    reflexivity.
Qed.

Lemma invest_no_op_iff_empty_selection_witness :
  positive_prices one_stock = true
  /\ select_stocks (strategy (picker [])) one_stock = ([], Return [])
  /\ (@nil string = [] ->
      invest (picker []) one_stock = ([NoValidStocks], Return (picker [])))
  /\ (@nil string <> [] -> fst (invest (picker []) one_stock) = []).
Proof.
  split; [reflexivity|]. split; [reflexivity|].
  apply (invest_no_op_iff_empty_selection (picker []) one_stock []); reflexivity.
Defined.

Lemma foldM_app {A S} (body : S -> A -> M S) l1 l2 s :
  foldM body (l1 ++ l2) s = (s' <- foldM body l1 s ;; foldM body l2 s').
Proof.
  revert s. induction l1 as [|x l1 IH]; intros s; simpl.
  - now destruct (foldM body l2 s).
  - destruct (body s x) as [o [e|s1]]; simpl; [reflexivity|].
    rewrite IH. destruct (foldM body l1 s1) as [o1 [e|s2]]; simpl.
    + reflexivity.
    + destruct (foldM body l2 s2) as [o2 r]. now rewrite app_assoc.
Qed.

(** One purchase at any non-zero price. *)
Lemma buy_at_nonzero_price md amount self s :
  In s (keys md) -> ~ price_of md s == 0 ->
  exists self', buy md amount self s = ([], Return self')
                /\ name self' = name self /\ strategy self' = strategy self.
Proof.
  intros Hs Hnz. apply In_keys_dict_get in Hs as [data Hd].
  unfold price_of in Hnz. rewrite Hd in Hnz.
  unfold buy, getitem. rewrite Hd.
  rewrite (bind_returns _ _ data) by reflexivity.
  rewrite (bind_returns _ _ (amount / price data)) by now apply py_div_returns.
  eexists. split; [reflexivity|]. split; reflexivity.
Qed.

Lemma buy_at_zero_price md amount self s :
  In s (keys md) -> price_of md s == 0 ->
  buy md amount self s = ([], Raise ZeroDivisionError).
Proof.
  intros Hs Hz. apply In_keys_dict_get in Hs as [data Hd].
  unfold price_of in Hz. rewrite Hd in Hz.
  unfold buy, getitem. rewrite Hd.
  rewrite (bind_returns _ _ data) by reflexivity.
  unfold py_div. apply Qeq_eq_bool in Hz. now rewrite Hz.
Qed.

Lemma buy_loop_nonzero md amount l :
  incl l (keys md) -> (forall s, In s l -> ~ price_of md s == 0) ->
  forall self, exists self', foldM (buy md amount) l self = ([], Return self').
Proof.
  induction l as [|s l IH]; intros Hin Hnz self; [now exists self|].
  destruct (buy_at_nonzero_price md amount self s) as (s1 & Hs1 & _);
    [apply Hin; now left|apply Hnz; now left|].
  destruct (IH (fun x Hx => Hin x (or_intror Hx))
               (fun x Hx => Hnz x (or_intror Hx)) s1) as (self' & Hrun).
  exists self'. cbn [foldM]. now rewrite (bind_returns _ _ s1 Hs1).
Qed.

Lemma first_zero_price md (l : list string) s :
  In s l -> price_of md s == 0 ->
  exists l1 z l2,
    l = l1 ++ z :: l2 /\ price_of md z == 0
    /\ forall x, In x l1 -> ~ price_of md x == 0.
Proof.
  induction l as [|y l IH]; simpl; [tauto|]. intros Hs Hz.
  destruct (Qeq_bool (price_of md y) 0) eqn:E.
  - apply Qeq_bool_eq in E. exists [], y, l. repeat split; [assumption|intros x []].
  - apply Qeq_bool_neq in E. destruct Hs as [->|Hs]; [tauto|].
    destruct (IH Hs Hz) as (l1 & z & l2 & -> & Hzero & Hl1).
    exists (y :: l1), z, l2. repeat split; [assumption|].
    intros x [<-|Hx]; auto.
Qed.

(** X3.  If the selection contains a symbol whose price is 0, [invest]
    raises [ZeroDivisionError]. *)
Theorem invest_zero_price_raises
    (self : Investor) (md : MarketData) (symbols : list string) (s : string) :
  select_stocks (strategy self) md = ([], Return symbols) ->
  In s symbols -> price_of md s == 0 ->
  invest self md = ([], Raise ZeroDivisionError).
Proof.
  intros Hsel Hs Hz.
  pose proof (select_stocks_present _ _ _ Hsel) as Hin.
  assert (symbols <> []) as Hne by (intros ->; destruct Hs).
  destruct (amount_per_stock_returns (balance self) symbols Hne) as (Hdiv & _ & _).
  unfold invest. rewrite (bind_returns _ _ symbols Hsel).
  destruct (Nat.eqb_spec (List.length symbols) 0) as [E|_];
    [destruct symbols; [congruence|discriminate]|].
  rewrite (bind_returns _ _ _ Hdiv).
  destruct (first_zero_price md symbols s Hs Hz) as (l1 & z & l2 & Hsplit & Hzero & Hl1).
  rewrite Hsplit in Hin |- *. rewrite foldM_app.
  destruct (buy_loop_nonzero md
              (balance self / inject_Z (Z.of_nat (List.length (l1 ++ z :: l2)))) l1
              (fun x Hx => Hin x (in_or_app _ _ _ (or_introl Hx))) Hl1 self)
    as (self1 & Hrun).
  rewrite (bind_returns _ _ self1 Hrun). cbn [foldM].
  rewrite buy_at_zero_price; [reflexivity| |assumption].
  apply Hin, in_or_app. right. now left.
Qed.

Lemma invest_zero_price_raises_witness :
  select_stocks (strategy (picker ["X"; "F"]))
    [("X", price_only 100); ("F", price_only 0)]
  = ([], Return ["X"; "F"])
  /\ In "F" ["X"; "F"]
  /\ price_of [("X", price_only 100); ("F", price_only 0)] "F" == 0
  /\ invest (picker ["X"; "F"]) [("X", price_only 100); ("F", price_only 0)]
     = ([], Raise ZeroDivisionError).
Proof.
  assert (In "F" ["X"; "F"]) as Hin by (simpl; tauto).
  split; [reflexivity|]. split; [exact Hin|]. split; [reflexivity|].
  apply (invest_zero_price_raises (picker ["X"; "F"])
           [("X", price_only 100); ("F", price_only 0)] ["X"; "F"] "F");
    [reflexivity|exact Hin|reflexivity].
Defined.

Lemma buy_inv md amount self s o self' :
  buy md amount self s = (o, Return self') ->
  name self' = name self /\ strategy self' = strategy self /\ In s (keys md)
  /\ exists n, portfolio self' = dict_set (portfolio self) s n.
Proof.
  unfold buy, getitem. destruct (dict_get md s) as [data|] eqn:Hd; [|discriminate].
  rewrite (bind_returns _ _ data) by reflexivity.
  unfold py_div. destruct (Qeq_bool (price data) 0); [discriminate|].
  simpl. intros [= _ <-]. simpl. repeat split; [eapply dict_get_keys; eauto|eauto].
Qed.

Lemma keys_after_In ks l k : In k (keys_after ks l) -> In k ks \/ In k l.
Proof.
  revert ks. induction l as [|s l IH]; intros ks H; [now left|].
  cbn [keys_after] in H. apply IH in H as [H|H]; [|right; now right].
  destruct (existsb (String.eqb s) ks); [now left|].
  apply in_app_or in H as [H|[<-|[]]]; [now left|right; now left].
Qed.

Lemma buy_loop_inv md amount l : forall self o self',
  foldM (buy md amount) l self = (o, Return self') ->
  name self' = name self /\ strategy self' = strategy self
  /\ (incl (keys (portfolio self)) (keys md) ->
      incl (keys (portfolio self')) (keys md)).
Proof.
  induction l as [|s l IH]; intros self o self' H.
  - injection H as _ <-. auto.
  - cbn [foldM] in H. apply bind_inv in H as (o1 & s1 & o2 & H1 & H2 & _).
    apply buy_inv in H1 as (Hn & Hs & Hin & n & Hpf).
    apply IH in H2 as (Hn' & Hs' & Hk).
    split; [congruence|]. split; [congruence|]. intros Hincl. apply Hk.
    rewrite Hpf, keys_dict_set. destruct (dict_mem (portfolio self) s); [assumption|].
    intros k Hk'. apply in_app_or in Hk' as [Hk'|[<-|[]]]; auto.
Qed.

(** Whenever [invest] returns, the investor keeps its name and strategy
    and holds only listed symbols if it did before. *)
Lemma invest_inv self md o self' :
  invest self md = (o, Return self') ->
  name self' = name self /\ strategy self' = strategy self
  /\ (incl (keys (portfolio self)) (keys md) ->
      incl (keys (portfolio self')) (keys md)).
Proof.
  unfold invest. intros H. apply bind_inv in H as (o1 & symbols & o2 & _ & H & _).
  destruct (List.length symbols =? 0)%nat.
  - injection H as _ <-. auto.
  - apply bind_inv in H as (o3 & a & o4 & _ & H & _). now apply buy_loop_inv in H.
Qed.











(** ** More on valuation *)

Lemma percent_return_value pf imd fmd v f :
  initial_value pf imd = ([], Return v) -> final_value pf fmd = ([], Return f) ->
  (v == 0 -> percent_return pf imd fmd = 0)
  /\ (~ v == 0 -> percent_return pf imd fmd = (f - v) / v * 100).
Proof.
  intros Hv Hf. unfold percent_return, calculate_portfolio_return.
  rewrite Hv, Hf. simpl. split; intros H.
  - apply Qeq_eq_bool in H. now rewrite H.
  - destruct (Qeq_bool v 0) eqn:E; [now apply Qeq_bool_eq in E|].
    unfold py_div. now rewrite E.
Qed.

Lemma Qsum_nonneg {A} (f : A -> Q) l :
  (forall x, In x l -> 0 <= f x) -> 0 <= Qsum (map f l).
Proof.
  induction l as [|x l IH]; intros H; [apply Qle_refl|].
  cbn [map Qsum fold_right]. fold (Qsum (map f l)).
  pose proof (H x (or_introl eq_refl)).
  assert (0 <= Qsum (map f l)) by (apply IH; intros; apply H; now right). lra.
Qed.

Lemma contribution_nonneg md (x : string * Z) :
  positive_prices md = true -> (0 <= snd x)%Z -> 0 <= contribution md x.
Proof.
  intros Hp Hq. unfold contribution.
  destruct (dict_get md (fst x)) as [data|] eqn:Hd; [|apply Qle_refl].
  destruct (listed_price md (fst x) Hp (dict_get_keys _ _ _ Hd))
    as (d & Hd' & _ & Hpos).
  rewrite Hd in Hd'. injection Hd' as <-.
  apply Qmult_le_0_compat; [now apply Qlt_le_weak|].
  change 0 with (inject_Z 0). now rewrite <- Zle_Qle.
Qed.

(** X7.  With positive prices in both tables and no holding held short,
    a portfolio bought from the initial table never returns less than
    -100 percent. *)
Theorem percent_return_at_least_minus_100
    (pf : dict Z) (imd fmd : MarketData) :
  positive_prices imd = true -> positive_prices fmd = true ->
  incl (keys pf) (keys imd) -> (forall x, In x pf -> (0 <= snd x)%Z) ->
  exists out r,
    calculate_portfolio_return pf imd fmd = (out, Return r) /\ - (100) <= r.
Proof.
  intros Hpi Hpf Hin Hq.
  destruct (initial_value_returns pf imd Hin) as (v & Hv & Ev).
  destruct (final_value_returns pf fmd) as (f & Hf & Ef).
  destruct (calculate_returns pf imd fmd Hin) as [out Hout].
  exists out, (percent_return pf imd fmd). split; [exact Hout|].
  destruct (percent_return_value pf imd fmd v f Hv Hf) as [H0 H1].
  assert (0 <= v) as Hv0.
  { rewrite Ev. apply Qsum_nonneg. intros x Hx. apply contribution_nonneg; auto. }
  assert (0 <= f) as Hf0.
  { rewrite Ef. apply Qsum_nonneg. intros x Hx. apply contribution_nonneg; auto. }
  destruct (Qeq_bool v 0) eqn:E.
  - apply Qeq_bool_eq in E. rewrite (H0 E). apply Qle_bool_iff. reflexivity.
  - apply Qeq_bool_neq in E. rewrite (H1 E).
    assert (0 < v) as Hpos.
    { apply Qle_lteq in Hv0 as [Hlt|Heq]; [assumption|]. symmetry in Heq. tauto. }
    assert (0 <= f / v) as Hfv.
    { apply Qle_shift_div_l; [assumption|]. now rewrite Qmult_0_l. }
    assert ((f - v) / v == f / v - 1) as -> by now field.
    lra.
Qed.

Lemma percent_return_at_least_minus_100_witness :
  positive_prices one_stock = true /\ positive_prices one_stock_later = true
  /\ incl (keys [("X", 10%Z)]) (keys one_stock)
  /\ (forall x, In x [("X", 10%Z)] -> (0 <= snd x)%Z)
  /\ exists out r,
    calculate_portfolio_return [("X", 10%Z)] one_stock one_stock_later = (out, Return r)
    /\ - (100) <= r.
Proof.
  assert (incl (keys [("X", 10%Z)]) (keys one_stock)) as Hin by (intros k Hk; exact Hk).
  assert (forall x, In x [("X", 10%Z)] -> (0 <= snd x)%Z) as Hq
    by (intros x [<-|[]]; simpl; lia).
  split; [reflexivity|]. split; [reflexivity|]. split; [exact Hin|]. split; [exact Hq|].
  apply (percent_return_at_least_minus_100 [("X", 10%Z)] one_stock one_stock_later);
    [reflexivity|reflexivity|exact Hin|exact Hq].
Defined.

Lemma filter_unlisted (pf : dict Z) (fmd : MarketData) :
  (forall s, In s (keys pf) -> ~ In s (keys fmd)) ->
  filter (fun x : string * Z => dict_mem fmd (fst x)) pf = [].
Proof.
  induction pf as [|x pf IH]; intros H; [reflexivity|]. simpl.
  destruct (dict_mem fmd (fst x)) eqn:E.
  - apply dict_mem_true in E. exfalso. apply (H (fst x)); [now left|exact E].
  - apply IH. intros s Hs. apply H. now right.
Qed.

(** X8.  When none of the held symbols is listed in the final table and
    the initial value is not 0, the return is exactly -100 percent, and
    nothing is printed or raised. *)
Theorem percent_return_all_delisted
    (pf : dict Z) (imd fmd : MarketData) (v : Q) :
  initial_value pf imd = ([], Return v) -> ~ v == 0 ->
  (forall s, In s (keys pf) -> ~ In s (keys fmd)) ->
  exists r, calculate_portfolio_return pf imd fmd = ([], Return r) /\ r == - (100).
Proof.
  intros Hv Hnz Hout.
  assert (final_value pf fmd = ([], Return 0)) as Hf.
  { unfold final_value, items. now rewrite filter_unlisted. }
  destruct (percent_return_value pf imd fmd v 0 Hv Hf) as [_ H1].
  exists ((0 - v) / v * 100). split.
  - unfold calculate_portfolio_return. rewrite Hv, Hf. simpl.
    destruct (Qeq_bool v 0) eqn:E; [now apply Qeq_bool_eq in E|].
    unfold py_div. now rewrite E.
  - now field.
Qed.

Lemma percent_return_all_delisted_witness :
  initial_value [("X", 10%Z)] one_stock = ([], Return 1000)
  /\ ~ 1000 == 0
  /\ (forall s, In s (keys [("X", 10%Z)]) -> ~ In s (keys (@nil (string * StockData))))
  /\ exists r,
    calculate_portfolio_return [("X", 10%Z)] one_stock [] = ([], Return r)
    /\ r == - (100).
Proof.
  assert (~ 1000 == 0) as Hnz by discriminate.
  assert (forall s, In s (keys [("X", 10%Z)]) -> ~ In s (keys (@nil (string * StockData))))
    as Hout by (intros s _ []).
  split; [reflexivity|]. split; [exact Hnz|]. split; [exact Hout|].
  apply (percent_return_all_delisted [("X", 10%Z)] one_stock [] 1000);
    [reflexivity|exact Hnz|exact Hout].
Defined.




(** ** From purchase to comparison *)

(** X10.  Investors who have just invested in the initial table, having
    held only symbols of that table before, can always be compared: the
    comparison raises nothing and ends by naming a best performer. *)
Theorem invested_portfolios_compare
    (investors invested : list Investor) (imd fmd : MarketData) :
  Forall2 (fun before after =>
             incl (keys (portfolio before)) (keys imd)
             /\ exists out, invest before imd = (out, Return after))
          investors invested ->
  invested <> [] ->
  exists out best r,
    compare_portfolios invested imd fmd = (out ++ [BestPerformer best r], Return tt).
Proof.
  intros Hall Hne.
  assert (holdings_listed invested imd) as Hl.
  { intros inv Hinv. induction Hall as [|b a l l' [Hb [o Ho]] _ IH]; [destruct Hinv|].
    destruct Hinv as [<-|Hinv].
    - now apply (invest_inv b imd o a Ho).
    - apply IH; [|assumption]. intros ->. destruct Hinv. }
  destruct (compare_portfolios_runs invested imd fmd Hne Hl)
    as (out & _ & _ & best & _ & _ & _ & _ & Hrun & _).
  now exists out, (fst best), (snd best).
Qed.

Lemma invested_portfolios_compare_witness :
  exists after,
    Forall2 (fun before after =>
               incl (keys (portfolio before)) (keys two_stocks)
               /\ exists out, invest before two_stocks = (out, Return after))
            [picker ["X"; "Y"]] [after]
    /\ [after] <> []
    /\ exists out best r,
      compare_portfolios [after] two_stocks one_stock_later
      = (out ++ [BestPerformer best r], Return tt).
Proof.
  destruct (invest (picker ["X"; "Y"]) two_stocks) as [out [e|after]] eqn:E;
    [vm_compute in E; discriminate|].
  exists after.
  assert (Forall2 (fun before after =>
               incl (keys (portfolio before)) (keys two_stocks)
               /\ exists out, invest before two_stocks = (out, Return after))
            [picker ["X"; "Y"]] [after]) as Hall.
  { constructor; [|constructor]. split; [intros k []|]. now exists out. }
  split; [exact Hall|]. split; [discriminate|].
  apply (invested_portfolios_compare [picker ["X"; "Y"]] [after] two_stocks
           one_stock_later Hall). discriminate.
Defined.

(** ** More on the criteria-based strategy *)

Lemma create_custom_strategy_cases md lo_cap hi_cap lo_vol hi_vol :
  let matching :=
    filter (fun x => meets_criteria lo_cap hi_cap lo_vol hi_vol (snd x)) (items md) in
  (matching = [] /\
   create_custom_strategy md lo_cap hi_cap lo_vol hi_vol
   = ([SelectedStocks []; NoValidStocksForCriteria], Return None))
  \/ (matching <> [] /\
      create_custom_strategy md lo_cap hi_cap lo_vol hi_vol
      = ([SelectedStocks (map fst matching)],
         Return (Some (CustomStrategy (firstn 10 (map fst matching)))))).
Proof.
  intros matching. unfold create_custom_strategy. fold matching.
  destruct matching as [|x l]; [left|right]; split;
    try reflexivity; discriminate.
Qed.

(** X11.  On a table in which no instrument carries [market_cap], every
    finite upper bound on the market cap leaves nothing selected and the
    function returns [None]; likewise for [volatility]. *)
Theorem criteria_none_without_attribute
    (md : MarketData) (lo_cap hi_cap lo_vol hi_vol : PyFloat) :
  (hi_cap <> PosInf /\ forall x, In x md -> market_cap (snd x) = None)
  \/ (hi_vol <> PosInf /\ forall x, In x md -> volatility (snd x) = None) ->
  create_custom_strategy md lo_cap hi_cap lo_vol hi_vol
  = ([SelectedStocks []; NoValidStocksForCriteria], Return None).
Proof.
  intros H.
  destruct (create_custom_strategy_cases md lo_cap hi_cap lo_vol hi_vol)
    as [[_ Hrun]|[Hne _]]; [exact Hrun|].
  exfalso. apply Hne. clear Hne. unfold items.
  induction md as [|x md IH]; [reflexivity|]. simpl.
  assert (meets_criteria lo_cap hi_cap lo_vol hi_vol (snd x) = false) as ->.
  { unfold meets_criteria. destruct H as [[Hhi Hnone]|[Hhi Hnone]];
      rewrite (Hnone x (or_introl eq_refl)); cbn [get_or_inf].
    - assert (fle PosInf hi_cap = false) as -> by (destruct hi_cap; [reflexivity|reflexivity|congruence]).
      now rewrite andb_false_r.
    - assert (fle PosInf hi_vol = false) as -> by (destruct hi_vol; [reflexivity|reflexivity|congruence]).
      now rewrite !andb_false_r. }
  apply IH. destruct H as [[Hhi Hnone]|[Hhi Hnone]]; [left|right];
    (split; [assumption|]); intros y Hy; apply Hnone; now right.
Qed.

Lemma criteria_none_without_attribute_witness :
  ((Fin 500 <> PosInf
    /\ forall x, In x market_data_next_year -> market_cap (snd x) = None)
   \/ (Fin 100 <> PosInf
       /\ forall x, In x market_data_next_year -> volatility (snd x) = None))
  /\ create_custom_strategy market_data_next_year (Fin 0) (Fin 500) (Fin 0) (Fin 100)
     = ([SelectedStocks []; NoValidStocksForCriteria], Return None).
Proof.
  assert ((Fin 500 <> PosInf
    /\ forall x, In x market_data_next_year -> market_cap (snd x) = None)
   \/ (Fin 100 <> PosInf
       /\ forall x, In x market_data_next_year -> volatility (snd x) = None)) as H.
  { left. split; [discriminate|]. intros x Hx. simpl in Hx.
    repeat (destruct Hx as [<-|Hx]; [reflexivity|]). destruct Hx. }
  split; [exact H|].
  apply (criteria_none_without_attribute market_data_next_year
           (Fin 0) (Fin 500) (Fin 0) (Fin 100) H).
Defined.

Lemma fle_trans a b c : fle a b = true -> fle b c = true -> fle a c = true.
Proof.
  destruct a, b, c; simpl; try congruence.
  rewrite !Qle_bool_iff. apply Qle_trans.
Qed.

Lemma meets_criteria_widen lo_cap hi_cap lo_vol hi_vol lo_cap' hi_cap' lo_vol' hi_vol' d :
  fle lo_cap' lo_cap = true -> fle hi_cap hi_cap' = true ->
  fle lo_vol' lo_vol = true -> fle hi_vol hi_vol' = true ->
  meets_criteria lo_cap hi_cap lo_vol hi_vol d = true ->
  meets_criteria lo_cap' hi_cap' lo_vol' hi_vol' d = true.
Proof.
  intros H1 H2 H3 H4. rewrite !meets_criteria_within. unfold within.
  intros [[A B] [C D]]. repeat split; eapply fle_trans; eassumption.
Qed.

(** X12.  Widening the bounds never loses a match: every symbol that
    the printed "Selected stocks" list names under the narrower bounds it
    names under the wider ones, and if the narrower bounds yield a
    strategy, so do the wider. *)
Theorem criteria_widening_keeps_matches
    (md : MarketData)
    (lo_cap hi_cap lo_vol hi_vol lo_cap' hi_cap' lo_vol' hi_vol' : PyFloat) :
  fle lo_cap' lo_cap = true -> fle hi_cap hi_cap' = true ->
  fle lo_vol' lo_vol = true -> fle hi_vol hi_vol' = true ->
  exists selected selected' rest rest',
    fst (create_custom_strategy md lo_cap hi_cap lo_vol hi_vol)
    = SelectedStocks selected :: rest
    /\ fst (create_custom_strategy md lo_cap' hi_cap' lo_vol' hi_vol')
       = SelectedStocks selected' :: rest'
    /\ incl selected selected'
    /\ (snd (create_custom_strategy md lo_cap hi_cap lo_vol hi_vol) <> Return None ->
        snd (create_custom_strategy md lo_cap' hi_cap' lo_vol' hi_vol') <> Return None).
Proof.
  intros H1 H2 H3 H4.
  set (F := filter (fun x => meets_criteria lo_cap hi_cap lo_vol hi_vol (snd x))
              (items md)).
  set (F' := filter (fun x => meets_criteria lo_cap' hi_cap' lo_vol' hi_vol' (snd x))
               (items md)).
  assert (incl F F') as Hincl.
  { intros x Hx. apply filter_In in Hx as [Hx Hm]. apply filter_In. split; [exact Hx|].
    eapply meets_criteria_widen; eassumption. }
  destruct (create_custom_strategy_cases md lo_cap hi_cap lo_vol hi_vol)
    as [[Hnil Hrun]|[Hne Hrun]];
    destruct (create_custom_strategy_cases md lo_cap' hi_cap' lo_vol' hi_vol')
      as [[Hnil' Hrun']|[Hne' Hrun']];
    fold F in Hnil, Hne, Hrun || fold F in Hne, Hrun || fold F in Hnil, Hrun || idtac;
    rewrite Hrun, Hrun'; cbn [fst snd].
  - exists [], [], [NoValidStocksForCriteria], [NoValidStocksForCriteria].
    repeat split; [intros x []|tauto].
  - exists [], (map fst F'), [NoValidStocksForCriteria], [].
    repeat split; [intros x []|discriminate].
  - exfalso. fold F in Hne. fold F' in Hnil'. destruct F as [|x l]; [congruence|].
    specialize (Hincl x (or_introl eq_refl)). rewrite Hnil' in Hincl. destruct Hincl.
  - exists (map fst F), (map fst F'), [], [].
    repeat split; [|discriminate].
    intros s Hs. apply in_map_iff in Hs as (x & <- & Hx). apply in_map. auto.
Qed.

Lemma criteria_widening_keeps_matches_witness :
  fle (Fin 0) (Fin 0) = true /\ fle (Fin 500) PosInf = true
  /\ fle (Fin 0) (Fin 0) = true /\ fle (Fin 100) PosInf = true
  /\ exists selected selected' rest rest',
    fst (create_custom_strategy one_stock (Fin 0) (Fin 500) (Fin 0) (Fin 100))
    = SelectedStocks selected :: rest
    /\ fst (create_custom_strategy one_stock (Fin 0) PosInf (Fin 0) PosInf)
       = SelectedStocks selected' :: rest'
    /\ incl selected selected'
    /\ (snd (create_custom_strategy one_stock (Fin 0) (Fin 500) (Fin 0) (Fin 100))
        <> Return None ->
        snd (create_custom_strategy one_stock (Fin 0) PosInf (Fin 0) PosInf)
        <> Return None).
Proof.
  split; [reflexivity|]. split; [reflexivity|]. split; [reflexivity|].
  split; [reflexivity|].
  apply (criteria_widening_keeps_matches one_stock
           (Fin 0) (Fin 500) (Fin 0) (Fin 100) (Fin 0) PosInf (Fin 0) PosInf);
    reflexivity.
Defined.

(** * Properties of the console layer *)

(** ** [get_player_stocks] *)

Lemma keys_after_prefix l : forall ks, exists extra, keys_after ks l = ks ++ extra.
Proof.
  induction l as [|s l IH]; intros ks.
  - exists []. now rewrite app_nil_r.
  - cbn [keys_after]. destruct (existsb (String.eqb s) ks); [apply IH|].
    destruct (IH (ks ++ [s])) as [extra ->]. exists (s :: extra).
    now rewrite <- app_assoc.
Qed.

Lemma keys_after_NoDup l : forall ks, NoDup ks -> NoDup (keys_after ks l).
Proof.
  induction l as [|s l IH]; intros ks H; [assumption|].
  cbn [keys_after]. destruct (existsb (String.eqb s) ks) eqn:E; [now apply IH|].
  apply IH. apply NoDup_app; [assumption|repeat constructor; simpl; tauto|].
  intros x Hx [<-|[]]. apply existsb_eqb_In in Hx. congruence.
Qed.

Lemma firstn_prefix {A} (l extra : list A) n :
  List.length l = n -> firstn n (l ++ extra) = l.
Proof.
  intros <-. rewrite firstn_app, Nat.sub_diag, firstn_all. simpl.
  now rewrite app_nil_r.
Qed.

Lemma collect_stocks_result md l : forall acc,
  (List.length acc <= 10)%nat ->
  snd (Console.collect_stocks md l acc)
  = firstn 10 (keys_after acc (filter (dict_mem md) l)).
Proof.
  induction l as [|s l IH]; intros acc Hlen.
  - cbn [Console.collect_stocks snd filter keys_after]. symmetry.
    now apply firstn_all2.
  - cbn [Console.collect_stocks filter]. destruct (dict_mem md s) eqn:Hs.
    + cbn [keys_after].
      destruct (existsb (String.eqb s) acc) eqn:Eex; cbn [negb andb].
      * destruct (10 <=? List.length acc)%nat eqn:E10.
        -- apply Nat.leb_le in E10. cbn [snd].
           destruct (keys_after_prefix (filter (dict_mem md) l) acc) as [extra ->].
           symmetry. apply firstn_prefix. lia.
        -- apply IH. exact Hlen.
      * destruct (List.length acc <? 10)%nat eqn:Elt.
        -- apply Nat.ltb_lt in Elt. apply IH. rewrite length_app. simpl. lia.
        -- apply Nat.ltb_ge in Elt.
           assert ((10 <=? List.length acc)%nat = true) as -> by now apply Nat.leb_le.
           cbn [snd].
           destruct (keys_after_prefix (filter (dict_mem md) l) (acc ++ [s]))
             as [extra ->].
           rewrite <- app_assoc. symmetry. apply firstn_prefix. lia.
    + destruct (Console.collect_stocks md l acc) as [out r] eqn:E. cbn [snd].
      specialize (IH acc Hlen). rewrite E in IH. exact IH.
Qed.

Lemma collect_stocks_messages md l : forall acc,
  (List.length (keys_after acc (filter (dict_mem md) l)) < 10)%nat ->
  fst (Console.collect_stocks md l acc)
  = map Console.InvalidSymbol (filter (fun s => negb (dict_mem md s)) l).
Proof.
  induction l as [|s l IH]; intros acc Hlen; [reflexivity|].
  cbn [Console.collect_stocks filter] in *. destruct (dict_mem md s) eqn:Hs; cbn [negb].
  - cbn [keys_after] in Hlen.
    assert (List.length acc < 10)%nat as Hacc.
    { destruct (keys_after_prefix (filter (dict_mem md) l)
                  (if existsb (String.eqb s) acc then acc else acc ++ [s]))
        as [extra E].
      rewrite E in Hlen. rewrite length_app in Hlen.
      destruct (existsb (String.eqb s) acc); [lia|].
      rewrite length_app in Hlen. lia. }
    assert ((List.length acc <? 10)%nat = true) as -> by now apply Nat.ltb_lt.
    assert ((10 <=? List.length acc)%nat = false) as -> by (apply Nat.leb_gt; lia).
    destruct (existsb (String.eqb s) acc); cbn [negb andb]; now apply IH.
  - destruct (Console.collect_stocks md l acc) as [out r] eqn:E. cbn [fst map].
    f_equal. specialize (IH acc Hlen). rewrite E in IH. exact IH.
Qed.

(** X13.  On one line of input [get_player_stocks] returns the first
    ten distinct listed symbols among the cleaned comma-separated fields,
    in the order of their first appearance: never more than 10, never a
    repeat, never an unlisted symbol.  At the end of the input it fails
    with [EOFError]. *)
Theorem get_player_stocks_first_ten
    (clean : string -> string) (md : MarketData) (line : string)
    (rest : list string) :
  Console.get_player_stocks clean md [] 
  = ([Console.Text "Enter up to 10 stock symbols, separated by commas (e.g., AAPL, GOOGL, MSFT):";
      Console.Prompt "Enter stock symbols: "], Console.Fail Console.EOFError)
  /\ exists out chosen,
    Console.get_player_stocks clean md (line :: rest)
    = (out, Console.Done chosen rest)
    /\ chosen
       = firstn 10 (keys_after []
                      (filter (dict_mem md)
                         (map clean (Console.split_on ","%char line))))
    /\ (List.length chosen <= 10)%nat
    /\ NoDup chosen
    /\ incl chosen (keys md).
Proof.
  split; [reflexivity|].
  set (fields := map clean (Console.split_on ","%char line)).
  pose proof (collect_stocks_result md fields [] (Nat.le_0_l 10)) as Hres.
  destruct (Console.collect_stocks md fields []) as [out chosen] eqn:E.
  cbn [snd] in Hres.
  exists (Console.Text "Enter up to 10 stock symbols, separated by commas (e.g., AAPL, GOOGL, MSFT):"
          :: Console.Prompt "Enter stock symbols: " :: out), chosen.
  split.
  { unfold Console.get_player_stocks, Console.io_bind, Console.say, Console.input.
    fold fields. now rewrite E. }
  split; [exact Hres|].
  assert (NoDup (keys_after [] (filter (dict_mem md) fields))) as Hnd
    by (apply keys_after_NoDup; constructor).
  rewrite Hres. split; [apply firstn_le_length|]. split.
  - rewrite <- (firstn_skipn 10) in Hnd. now apply NoDup_app_remove_r in Hnd.
  - intros s Hs.
    assert (In s (keys_after [] (filter (dict_mem md) fields))) as Hin
      by (rewrite <- (firstn_skipn 10); apply in_or_app; now left).
    apply keys_after_In in Hin as [[]|Hin].
    apply filter_In in Hin as [_ Hin]. now apply dict_mem_true.
Qed.

(** X14.  While fewer than ten distinct listed symbols have been
    entered, the loop of [get_player_stocks] reports every unlisted field,
    once per occurrence and in order, and prints nothing else: a repeated
    listed symbol is dropped without a message. *)
Theorem collect_stocks_reports_invalid (md : MarketData) (stock_list : list string) :
  (List.length (keys_after [] (filter (dict_mem md) stock_list)) < 10)%nat ->
  Console.collect_stocks md stock_list []
  = (map Console.InvalidSymbol (filter (fun s => negb (dict_mem md s)) stock_list),
     keys_after [] (filter (dict_mem md) stock_list)).
Proof.
  intros Hlen.
  pose proof (collect_stocks_messages md stock_list [] Hlen) as Hout.
  pose proof (collect_stocks_result md stock_list [] (Nat.le_0_l 10)) as Hres.
  destruct (Console.collect_stocks md stock_list []) as [out chosen].
  cbn [fst snd] in *. subst. f_equal. apply firstn_all2. lia.
Qed.

Lemma collect_stocks_reports_invalid_witness :
  (List.length (keys_after [] (filter (dict_mem one_stock) ["X"; "Q"; "X"])) < 10)%nat
  /\ Console.collect_stocks one_stock ["X"; "Q"; "X"] []
     = ([Console.InvalidSymbol "Q"], ["X"]).
Proof.
  assert (List.length (keys_after [] (filter (dict_mem one_stock) ["X"; "Q"; "X"])) < 10)%nat
    as H by (vm_compute; lia).
  split; [exact H|].
  exact (collect_stocks_reports_invalid one_stock ["X"; "Q"; "X"] H).
Defined.

Lemma collect_stocks_at_cap md stock l2 l1 : forall acc,
  NoDup (acc ++ filter (dict_mem md) l1) ->
  List.length (acc ++ filter (dict_mem md) l1) = 10%nat ->
  dict_mem md stock = true ->
  Console.collect_stocks md (l1 ++ stock :: l2) acc
  = (map Console.InvalidSymbol (filter (fun s => negb (dict_mem md s)) l1)
     ++ [Console.Text "Maximum of 10 stocks reached. Additional stocks are ignored."],
     acc ++ filter (dict_mem md) l1).
Proof.
  induction l1 as [|x l1 IH]; intros acc Hnd Hlen Hstock.
  - simpl in *. rewrite app_nil_r in *. rewrite Hstock, Hlen. simpl.
    now rewrite andb_false_r.
  - cbn [app Console.collect_stocks filter] in *.
    destruct (dict_mem md x) eqn:Hx; cbn [negb].
    + assert (~ In x acc) as Hnotin.
      { intros Hin. apply NoDup_remove_2 in Hnd. apply Hnd.
        apply in_or_app. now left. }
      assert (existsb (String.eqb x) acc = false) as ->.
      { destruct (existsb (String.eqb x) acc) eqn:E; [|reflexivity].
        apply existsb_eqb_In in E. tauto. }
      rewrite length_app in Hlen. simpl in Hlen.
      assert ((List.length acc <? 10)%nat = true) as -> by (apply Nat.ltb_lt; lia).
      cbn [negb andb].
      rewrite (IH (acc ++ [x])); [now rewrite <- app_assoc| | |assumption].
      * now rewrite <- app_assoc.
      * rewrite <- app_assoc, length_app. simpl. lia.
    + rewrite (IH acc Hnd Hlen Hstock). reflexivity.
Qed.

(** X15.  Once ten distinct listed symbols have been taken, the next
    listed field, new or repeated, ends the reading: the "maximum
    reached" line is printed once, and whatever follows it, listed or
    not, is neither taken nor reported. *)
Theorem collect_stocks_stops_at_cap
    (md : MarketData) (first : list string) (stock : string) (later : list string) :
  NoDup (filter (dict_mem md) first) ->
  List.length (filter (dict_mem md) first) = 10%nat ->
  dict_mem md stock = true ->
  Console.collect_stocks md (first ++ stock :: later) []
  = (map Console.InvalidSymbol (filter (fun s => negb (dict_mem md s)) first)
     ++ [Console.Text "Maximum of 10 stocks reached. Additional stocks are ignored."],
     filter (dict_mem md) first).
Proof.
  intros Hnd Hlen Hstock.
  exact (collect_stocks_at_cap md stock later first [] Hnd Hlen Hstock).
Qed.

Lemma collect_stocks_stops_at_cap_witness :
  NoDup (filter (dict_mem market_data)
           ["AAPL"; "GOOGL"; "MSFT"; "AMZN"; "FB"; "NFLX"; "TSLA"; "BABA"; "V"; "MA"])
  /\ List.length (filter (dict_mem market_data)
           ["AAPL"; "GOOGL"; "MSFT"; "AMZN"; "FB"; "NFLX"; "TSLA"; "BABA"; "V"; "MA"])
     = 10%nat
  /\ dict_mem market_data "AAPL" = true
  /\ Console.collect_stocks market_data
       (["AAPL"; "GOOGL"; "MSFT"; "AMZN"; "FB"; "NFLX"; "TSLA"; "BABA"; "V"; "MA"]
        ++ "AAPL" :: ["NOPE"; "KO"]) []
     = (map Console.InvalidSymbol
          (filter (fun s => negb (dict_mem market_data s))
             ["AAPL"; "GOOGL"; "MSFT"; "AMZN"; "FB"; "NFLX"; "TSLA"; "BABA"; "V"; "MA"])
        ++ [Console.Text "Maximum of 10 stocks reached. Additional stocks are ignored."],
        filter (dict_mem market_data)
          ["AAPL"; "GOOGL"; "MSFT"; "AMZN"; "FB"; "NFLX"; "TSLA"; "BABA"; "V"; "MA"]).
Proof.
  assert (NoDup (filter (dict_mem market_data)
           ["AAPL"; "GOOGL"; "MSFT"; "AMZN"; "FB"; "NFLX"; "TSLA"; "BABA"; "V"; "MA"]))
    as Hnd by (apply distinct_NoDup; reflexivity).
  split; [exact Hnd|]. split; [reflexivity|]. split; [reflexivity|].
  apply (collect_stocks_stops_at_cap market_data
           ["AAPL"; "GOOGL"; "MSFT"; "AMZN"; "FB"; "NFLX"; "TSLA"; "BABA"; "V"; "MA"]
           "AAPL" ["NOPE"; "KO"] Hnd); reflexivity.
Defined.

(** ** [safe_float_input] and [get_float_input] *)

Lemma safe_float_input_skips {F} (float : string -> option F) prompt skipped stdin :
  (forall l, In l skipped -> Console.accepted float l = false) ->
  Console.safe_float_input float prompt (skipped ++ stdin)
  = (flat_map (fun l => [Console.Prompt prompt; Console.rejection float l]) skipped
     ++ fst (Console.safe_float_input float prompt stdin),
     snd (Console.safe_float_input float prompt stdin)).
Proof.
  induction skipped as [|l skipped IH]; intros H.
  - simpl. now destruct (Console.safe_float_input float prompt stdin).
  - pose proof (H l (or_introl eq_refl)) as Hl.
    cbn [app Console.safe_float_input flat_map].
    rewrite IH by (intros; apply H; now right).
    unfold Console.accepted, Console.rejection, Console.line_values in *.
    destruct (Console.parse_all float (Console.split_on ","%char l)) as [values|].
    + rewrite Hl. reflexivity.
    + reflexivity.
Qed.

Lemma first_accepted {F} (float : string -> option F) (stdin : list string) :
  (exists skipped line rest,
     stdin = skipped ++ line :: rest
     /\ (forall l, In l skipped -> Console.accepted float l = false)
     /\ Console.accepted float line = true)
  \/ (forall l, In l stdin -> Console.accepted float l = false).
Proof.
  induction stdin as [|l stdin IH]; [right; intros ? []|].
  destruct (Console.accepted float l) eqn:E.
  - left. exists [], l, stdin. repeat split; [intros ? []|assumption].
  - destruct IH as [(skipped & line & rest & -> & Hs & Hl)|Hnone].
    + left. exists (l :: skipped), line, rest. repeat split; [|assumption].
      intros x [<-|Hx]; auto.
    + right. intros x [<-|Hx]; auto.
Qed.

Lemma accepted_pair {F} (float : string -> option F) line :
  Console.accepted float line = true ->
  exists a b, Console.line_values float line = Some [a; b].
Proof.
  unfold Console.accepted. destruct (Console.line_values float line) as [values|];
    [|discriminate].
  destruct values as [|a [|b [|c l]]]; try discriminate. now exists a, b.
Qed.

(** X16.  [safe_float_input] skips every line that does not split at
    commas into exactly two fields that [float] parses, answering each
    with one message (a numeric-value complaint if some field does not
    parse, else an exactly-two complaint), and returns the two values of
    the first line that does, consuming it; it never returns a list of
    another length.  If no line qualifies it fails with [EOFError] once
    the input is used up.  The prompt is repeated before every read. *)
Theorem safe_float_input_runs
    {F : Type} (float : string -> option F) (prompt : string)
    (stdin : list string) :
  (exists skipped line rest a b,
     stdin = skipped ++ line :: rest
     /\ (forall l, In l skipped -> Console.accepted float l = false)
     /\ Console.line_values float line = Some [a; b]
     /\ Console.safe_float_input float prompt stdin
        = (flat_map (fun l => [Console.Prompt prompt; Console.rejection float l])
             skipped ++ [Console.Prompt prompt],
           Console.Done [a; b] rest))
  \/ ((forall l, In l stdin -> Console.accepted float l = false)
      /\ Console.safe_float_input float prompt stdin
         = (flat_map (fun l => [Console.Prompt prompt; Console.rejection float l])
              stdin ++ [Console.Prompt prompt],
            Console.Fail Console.EOFError)).
Proof.
  destruct (first_accepted float stdin)
    as [(skipped & line & rest & -> & Hs & Hl)|Hnone].
  - left. destruct (accepted_pair float line Hl) as (a & b & Hab).
    exists skipped, line, rest, a, b. repeat split; try assumption.
    rewrite safe_float_input_skips by assumption.
    cbn [Console.safe_float_input]. unfold Console.line_values in Hab.
    rewrite Hab. reflexivity.
  - right. split; [assumption|].
    rewrite <- (app_nil_r stdin) at 1.
    rewrite safe_float_input_skips by assumption. reflexivity.
Qed.

Lemma get_float_input_skips {F} (float : string -> option F) prompt skipped stdin :
  (forall l, In l skipped -> float l = None) ->
  Console.get_float_input float prompt (skipped ++ stdin)
  = (flat_map (fun _ => [Console.Prompt prompt;
                         Console.Text "Invalid input, please enter a numeric value."])
       skipped
     ++ fst (Console.get_float_input float prompt stdin),
     snd (Console.get_float_input float prompt stdin)).
Proof.
  induction skipped as [|l skipped IH]; intros H.
  - simpl. now destruct (Console.get_float_input float prompt stdin).
  - cbn [app Console.get_float_input flat_map].
    rewrite (H l (or_introl eq_refl)), IH by (intros; apply H; now right).
    reflexivity.
Qed.

(** X17.  [get_float_input] returns the value of the first line that
    [float] parses, after one "invalid input" message for every line
    before it, and fails with [EOFError] if no line parses. *)
Theorem get_float_input_runs
    {F : Type} (float : string -> option F) (prompt : string)
    (stdin : list string) :
  (exists skipped line rest v,
     stdin = skipped ++ line :: rest
     /\ (forall l, In l skipped -> float l = None)
     /\ float line = Some v
     /\ Console.get_float_input float prompt stdin
        = (flat_map (fun _ => [Console.Prompt prompt;
                               Console.Text "Invalid input, please enter a numeric value."])
             skipped ++ [Console.Prompt prompt],
           Console.Done v rest))
  \/ ((forall l, In l stdin -> float l = None)
      /\ Console.get_float_input float prompt stdin
         = (flat_map (fun _ => [Console.Prompt prompt;
                                Console.Text "Invalid input, please enter a numeric value."])
              stdin ++ [Console.Prompt prompt],
            Console.Fail Console.EOFError)).
Proof.
  assert ((exists skipped line rest v,
             stdin = skipped ++ line :: rest
             /\ (forall l, In l skipped -> float l = None) /\ float line = Some v)
          \/ (forall l, In l stdin -> float l = None)) as [H|H].
  { induction stdin as [|l stdin IH]; [right; intros ? []|].
    destruct (float l) as [v|] eqn:E.
    - left. exists [], l, stdin, v. repeat split; [intros ? []|assumption].
    - destruct IH as [(skipped & line & rest & v & -> & Hs & Hl)|Hnone].
      + left. exists (l :: skipped), line, rest, v. repeat split; [|assumption].
        intros x [<-|Hx]; auto.
      + right. intros x [<-|Hx]; auto. }
  - left. destruct H as (skipped & line & rest & v & -> & Hs & Hl).
    exists skipped, line, rest, v. repeat split; try assumption.
    rewrite get_float_input_skips by assumption.
    cbn [Console.get_float_input]. now rewrite Hl.
  - right. split; [assumption|].
    rewrite <- (app_nil_r stdin) at 1.
    rewrite get_float_input_skips by assumption. reflexivity.
Qed.

(** ** Splitting at commas *)

Lemma split_on_nonempty c s : Console.split_on c s <> [].
Proof.
  destruct s as [|c' s]; simpl; [discriminate|].
  destruct (Ascii.eqb c' c); [discriminate|].
  destruct (Console.split_on c s); discriminate.
Qed.

Lemma split_on_free c s : Console.free_of c s = true -> Console.split_on c s = [s].
Proof.
  induction s as [|c' s IH]; simpl; [reflexivity|].
  destruct (Ascii.eqb c' c); simpl; [discriminate|].
  intros H. now rewrite (IH H).
Qed.

Lemma split_on_app c l r :
  Console.free_of c l = true ->
  Console.split_on c (l ++ String c r) = l :: Console.split_on c r.
Proof.
  induction l as [|c' l IH]; simpl.
  - intros _. now rewrite Ascii.eqb_refl.
  - destruct (Ascii.eqb c' c); simpl; [discriminate|].
    intros H. now rewrite (IH H).
Qed.

Lemma split_on_one c s r :
  Console.split_on c s = [r] -> s = r /\ Console.free_of c s = true.
Proof.
  revert r. induction s as [|c' s IH]; intros r; simpl.
  - intros [= <-]. now split.
  - destruct (Ascii.eqb c' c) eqn:E.
    + intros [= _ H]. now apply split_on_nonempty in H.
    + destruct (Console.split_on c s) as [|f fs] eqn:Es;
        [now apply split_on_nonempty in Es|].
      intros [= <- ->]. destruct (IH f eq_refl) as [-> Hf]. now split.
Qed.

Lemma split_on_two c s l r :
  Console.split_on c s = [l; r] ->
  s = (l ++ String c r)%string
  /\ Console.free_of c l = true /\ Console.free_of c r = true.
Proof.
  revert l. induction s as [|c' s IH]; intros l; simpl; [discriminate|].
  destruct (Ascii.eqb_spec c' c) as [->|Hne].
  - intros [= <- Hr]. apply split_on_one in Hr as [-> Hr]. now repeat split.
  - destruct (Console.split_on c s) as [|f fs] eqn:E; [discriminate|].
    intros [= <- ->]. destruct (IH f eq_refl) as (-> & Hl & Hr).
    split; [reflexivity|]. split; [|assumption].
    simpl. apply Ascii.eqb_neq in Hne. now rewrite Hne.
Qed.

(** X18.  A line is accepted by [safe_float_input] with the values
    [a] and [b] exactly when it is two comma-free fields joined by one
    comma, of which [float] parses the first to [a] and the second to
    [b]. *)
Theorem accepted_line_shape
    {F : Type} (float : string -> option F) (line : string) (a b : F) :
  Console.line_values float line = Some [a; b]
  <-> exists l r,
        line = (l ++ String ","%char r)%string
        /\ Console.free_of ","%char l = true /\ Console.free_of ","%char r = true
        /\ float l = Some a /\ float r = Some b.
Proof.
  unfold Console.line_values. split.
  - intros H.
    destruct (Console.split_on ","%char line) as [|l [|r [|x fields]]] eqn:E;
      simpl in H.
    + discriminate.
    + destruct (float l); discriminate.
    + destruct (float l) as [a'|] eqn:El; [|discriminate].
      destruct (float r) as [b'|] eqn:Er; [|discriminate].
      injection H as -> ->.
      destruct (split_on_two _ _ _ _ E) as (-> & Hl & Hr).
      now exists l, r.
    + destruct (float l); [|discriminate]. destruct (float r); [|discriminate].
      destruct (float x); [|discriminate].
      destruct (Console.parse_all float fields); discriminate.
  - intros (l & r & -> & Hl & Hr & Ha & Hb).
    rewrite split_on_app, (split_on_free _ r) by assumption.
    simpl. now rewrite Ha, Hb.
Qed.

(** ** The menus *)

Lemma io_bind_done {A B} (m : Console.IO A) (k : A -> Console.IO B)
    stdin o1 a mid o2 r :
  m stdin = (o1, Console.Done a mid) -> k a mid = (o2, r) ->
  Console.io_bind m k stdin = (o1 ++ o2, r).
Proof. intros Hm Hk. unfold Console.io_bind. now rewrite Hm, Hk. Qed.

Lemma io_bind_inv {A B} (m : Console.IO A) (k : A -> Console.IO B)
    stdin o b rest :
  Console.io_bind m k stdin = (o, Console.Done b rest) ->
  exists o1 a mid o2,
    m stdin = (o1, Console.Done a mid) /\ k a mid = (o2, Console.Done b rest)
    /\ o = o1 ++ o2.
Proof.
  unfold Console.io_bind. destruct (m stdin) as [o1 [f|a mid]]; [discriminate|].
  destruct (k a mid) as [o2 r] eqn:E. intros [= <- ->]. now exists o1, a, mid, o2.
Qed.

Lemma lift_done {A} (m : M A) out a stdin :
  m = (out, Return a) ->
  Console.lift m stdin = (map Console.Core out, Console.Done a stdin).
Proof. intros ->. reflexivity. Qed.

Lemma lift_inv {A} (m : M A) stdin o a rest :
  Console.lift m stdin = (o, Console.Done a rest) ->
  exists out, m = (out, Return a) /\ rest = stdin.
Proof.
  unfold Console.lift. destruct m as [out [e|a']]; [discriminate|].
  intros [= _ <- <-]. now exists out.
Qed.

Lemma choose_step frames line rest :
  Console.choose_predefined_strategy (S frames) (line :: rest)
  = match predefined line with
    | Some strategy => (strategy_banner, Console.Done strategy rest)
    | None =>
        (strategy_banner
         ++ Console.Text "Invalid choice. Please select a valid strategy."
         :: fst (Console.choose_predefined_strategy frames rest),
         snd (Console.choose_predefined_strategy frames rest))
    end.
Proof.
  unfold predefined. cbn [Console.choose_predefined_strategy].
  unfold Console.io_bind, Console.say, Console.input, Console.io_ret.
  destruct (String.eqb line "1"); [reflexivity|].
  destruct (String.eqb line "2"); [reflexivity|].
  destruct (String.eqb line "3"); [reflexivity|].
  destruct (Console.choose_predefined_strategy frames rest) as [o r]. reflexivity.
Qed.

(** X19.  [choose_predefined_strategy] returns the strategy named by
    the first line that is exactly 1, 2 or 3 (Aggressive, Conservative,
    Random), consuming it; every line before it is answered with the
    list of strategies again and one "invalid choice" message.  This
    holds as long as the wrong lines are fewer than the nested calls the
    interpreter allows. *)
Theorem choose_predefined_strategy_runs
    (frames : nat) (wrong : list string) (choice : string) (rest : list string)
    (strategy : Strategy) :
  (forall w, In w wrong -> predefined w = None) ->
  predefined choice = Some strategy ->
  (List.length wrong < frames)%nat ->
  Console.choose_predefined_strategy frames (wrong ++ choice :: rest)
  = (flat_map (fun _ => strategy_banner
                 ++ [Console.Text "Invalid choice. Please select a valid strategy."])
       wrong ++ strategy_banner,
     Console.Done strategy rest).
Proof.
  revert frames. induction wrong as [|w wrong IH]; intros frames Hw Hc Hlen.
  - destruct frames as [|frames]; [inversion Hlen|].
    cbn [app flat_map]. now rewrite choose_step, Hc.
  - destruct frames as [|frames]; [inversion Hlen|].
    cbn [app flat_map List.length] in *.
    rewrite choose_step, (Hw w (or_introl eq_refl)).
    rewrite IH; [|intros; apply Hw; now right|assumption|lia].
    cbn [fst snd]. reflexivity.
Qed.

Lemma choose_predefined_strategy_runs_witness :
  (forall w, In w [" 1"; "4"] -> predefined w = None)
  /\ predefined "2" = Some ConservativeStrategy
  /\ (List.length [" 1"; "4"] < 3)%nat
  /\ Console.choose_predefined_strategy 3 ([" 1"; "4"] ++ "2" :: ["left"])
     = (flat_map (fun _ => strategy_banner
                    ++ [Console.Text "Invalid choice. Please select a valid strategy."])
          [" 1"; "4"] ++ strategy_banner,
        Console.Done ConservativeStrategy ["left"]).
Proof.
  assert (forall w, In w [" 1"; "4"] -> predefined w = None) as Hw
    by (intros w [<-|[<-|[]]]; reflexivity).
  assert (List.length [" 1"; "4"] < 3)%nat as Hlen by (simpl; lia).
  split; [exact Hw|]. split; [reflexivity|]. split; [exact Hlen|].
  exact (choose_predefined_strategy_runs 3 [" 1"; "4"] "2" ["left"]
           ConservativeStrategy Hw eq_refl Hlen).
Defined.

Lemma choose_never_custom frames : forall stdin o strategy rest,
  Console.choose_predefined_strategy frames stdin = (o, Console.Done strategy rest) ->
  forall stocks, strategy <> CustomStrategy stocks.
Proof.
  induction frames as [|frames IH]; intros stdin o strategy rest H stocks.
  - discriminate.
  - destruct stdin as [|line stdin]; [discriminate|].
    rewrite choose_step in H. unfold predefined in H.
    destruct (String.eqb line "1"); [injection H as _ <- _; discriminate|].
    destruct (String.eqb line "2"); [injection H as _ <- _; discriminate|].
    destruct (String.eqb line "3"); [injection H as _ <- _; discriminate|].
    destruct (Console.choose_predefined_strategy frames stdin) as [o' r] eqn:E.
    cbn [fst snd] in H. injection H as _ ->. eapply IH; eauto.
Qed.

Lemma collect_stocks_chosen md l :
  (List.length (snd (Console.collect_stocks md l [])) <= 10)%nat
  /\ NoDup (snd (Console.collect_stocks md l []))
  /\ incl (snd (Console.collect_stocks md l [])) (keys md).
Proof.
  rewrite (collect_stocks_result md l [] (Nat.le_0_l 10)).
  assert (NoDup (keys_after [] (filter (dict_mem md) l))) as Hnd
    by (apply keys_after_NoDup; constructor).
  split; [apply firstn_le_length|]. split.
  - rewrite <- (firstn_skipn 10) in Hnd. now apply NoDup_app_remove_r in Hnd.
  - intros s Hs.
    assert (In s (keys_after [] (filter (dict_mem md) l))) as Hin
      by (rewrite <- (firstn_skipn 10); apply in_or_app; now left).
    apply keys_after_In in Hin as [[]|Hin].
    apply filter_In in Hin as [_ Hin]. now apply dict_mem_true.
Qed.

Lemma safe_float_input_done {F} (float : string -> option F) prompt stdin o values rest :
  Console.safe_float_input float prompt stdin = (o, Console.Done values rest) ->
  exists a b, values = [a; b].
Proof.
  revert o. induction stdin as [|line stdin IH]; intros o; [discriminate|].
  cbn [Console.safe_float_input].
  destruct (Console.parse_all float (Console.split_on ","%char line)) as [vs|].
  - destruct (List.length vs =? 2)%nat eqn:E.
    + intros [= _ <- _]. destruct vs as [|a [|b [|c l]]]; try discriminate.
      now exists a, b.
    + destruct (Console.safe_float_input float prompt stdin) as [o' r] eqn:E'.
      intros [= _ ->]. eapply IH. reflexivity.
  - destruct (Console.safe_float_input float prompt stdin) as [o' r] eqn:E'.
    intros [= _ ->]. eapply IH. reflexivity.
Qed.

Lemma NoDup_map_filter {A B} (f : A -> B) (p : A -> bool) l :
  NoDup (map f l) -> NoDup (map f (filter p l)).
Proof.
  induction l as [|x l IH]; simpl; intros H; [constructor|].
  inversion H as [|? ? Hx Hl]; subst.
  destruct (p x); simpl; [|auto]. constructor; [|auto].
  intros Hin. apply Hx. apply in_map_iff in Hin as (y & Hy & Hin).
  apply filter_In in Hin as [Hin _]. rewrite <- Hy. now apply in_map.
Qed.

Lemma criteria_strategy_capped md lo_cap hi_cap lo_vol hi_vol out stocks :
  dict_wf md ->
  create_custom_strategy md lo_cap hi_cap lo_vol hi_vol
  = (out, Return (Some (CustomStrategy stocks))) ->
  (List.length stocks <= 10)%nat /\ NoDup stocks /\ incl stocks (keys md).
Proof.
  intros Hwf H.
  destruct (create_custom_strategy_cases md lo_cap hi_cap lo_vol hi_vol)
    as [[_ Hrun]|[_ Hrun]]; rewrite Hrun in H; [discriminate|].
  set (F := filter (fun x => meets_criteria lo_cap hi_cap lo_vol hi_vol (snd x))
              (items md)) in *.
  assert (stocks = firstn 10 (map fst F)) as -> by congruence.
  assert (incl (map fst F) (keys md)) as Hincl.
  { intros s Hs. apply in_map_iff in Hs as (x & <- & Hx).
    apply filter_In in Hx as [Hx _]. now apply in_map. }
  assert (NoDup (map fst F)) as Hnd by (apply NoDup_map_filter; exact Hwf).
  split; [apply firstn_le_length|]. split.
  - rewrite <- (firstn_skipn 10) in Hnd. now apply NoDup_app_remove_r in Hnd.
  - intros s Hs. apply Hincl. rewrite <- (firstn_skipn 10).
    apply in_or_app. now left.
Qed.

Lemma console_create_capped float md stdin o stocks rest :
  dict_wf md ->
  Console.create_custom_strategy float md stdin
  = (o, Console.Done (Some (CustomStrategy stocks)) rest) ->
  (List.length stocks <= 10)%nat /\ NoDup stocks /\ incl stocks (keys md).
Proof.
  intros Hwf H. unfold Console.create_custom_strategy in H.
  apply io_bind_inv in H as (o1 & caps & mid & o2 & Hcaps & H & _).
  apply safe_float_input_done in Hcaps as (a & b & ->).
  apply io_bind_inv in H as (o3 & vols & mid' & o4 & Hvols & H & _).
  apply safe_float_input_done in Hvols as (c & d & ->).
  apply lift_inv in H as (out & H & _).
  eapply criteria_strategy_capped; eassumption.
Qed.

Lemma menu_custom_capped float clean md frames : forall stdin o stocks rest,
  dict_wf md ->
  Console.player_options_menu float clean frames md stdin
  = (o, Console.Done (Some (CustomStrategy stocks)) rest) ->
  (List.length stocks <= 10)%nat /\ NoDup stocks /\ incl stocks (keys md).
Proof.
  induction frames as [|frames IH]; intros stdin o stocks rest Hwf H; [discriminate|].
  cbn [Console.player_options_menu] in H.
  repeat (apply io_bind_inv in H as (? & [] & ? & ? & Hsay & H & _);
          injection Hsay as _ <-).
  apply io_bind_inv in H as (o1 & choice & mid & o2 & _ & H & _).
  destruct (String.eqb choice "1").
  { apply io_bind_inv in H as (o3 & chosen & mid' & o4 & Hget & H & _).
    injection H as _ <- _.
    unfold Console.get_player_stocks in Hget.
    apply io_bind_inv in Hget as (? & [] & ? & ? & _ & Hget & _).
    apply io_bind_inv in Hget as (? & line & ? & ? & _ & Hget & _).
    destruct (Console.collect_stocks md (map clean (Console.split_on ","%char line)) [])
      as [out chosen'] eqn:E.
    injection Hget as _ <- _.
    pose proof (collect_stocks_chosen md (map clean (Console.split_on ","%char line)))
      as Hc.
    now rewrite E in Hc. }
  destruct (String.eqb choice "2").
  { apply io_bind_inv in H as (o3 & s & mid' & o4 & Hch & H & _).
    injection H as _ -> _. exfalso.
    now apply (choose_never_custom _ _ _ _ _ Hch stocks). }
  destruct (String.eqb choice "3").
  { eapply console_create_capped; eassumption. }
  apply io_bind_inv in H as (? & [] & ? & ? & _ & H & _).
  eapply IH; eassumption.
Qed.

(** X20.  Whatever the player types, an explicit-list strategy that
    [player_options_menu] hands back, whether typed in or built from
    criteria, names at most 10 symbols, pairwise distinct and all listed,
    and so selects exactly its own list from the table. *)
Theorem menu_custom_strategy_capped
    (float : string -> option PyFloat) (clean : string -> string)
    (frames : nat) (md : MarketData) (stdin : list string)
    (out : list Console.Line) (stocks : list string) (rest : list string) :
  dict_wf md ->
  Console.player_options_menu float clean frames md stdin
  = (out, Console.Done (Some (CustomStrategy stocks)) rest) ->
  (List.length stocks <= 10)%nat
  /\ NoDup stocks
  /\ incl stocks (keys md)
  /\ select_stocks (CustomStrategy stocks) md = ([], Return stocks).
Proof.
  intros Hwf H.
  destruct (menu_custom_capped float clean md frames stdin out stocks rest Hwf H)
    as (Hlen & Hnd & Hincl).
  repeat split; try assumption. now apply custom_select_listed.
Qed.

Lemma menu_custom_strategy_capped_witness :
  exists out,
    dict_wf one_stock
    /\ Console.player_options_menu float01 as_typed 1 one_stock ["1"; "X,Q,X"]
       = (out, Console.Done (Some (CustomStrategy ["X"])) [])
    /\ (List.length ["X"] <= 10)%nat
    /\ NoDup ["X"]
    /\ incl ["X"] (keys one_stock)
    /\ select_stocks (CustomStrategy ["X"]) one_stock = ([], Return ["X"]).
Proof.
  assert (dict_wf one_stock) as Hwf by (apply distinct_NoDup; reflexivity).
  eexists. split; [exact Hwf|].
  assert (forall out,
            Console.player_options_menu float01 as_typed 1 one_stock ["1"; "X,Q,X"]
            = (out, Console.Done (Some (CustomStrategy ["X"])) []) ->
            Console.player_options_menu float01 as_typed 1 one_stock ["1"; "X,Q,X"]
            = (out, Console.Done (Some (CustomStrategy ["X"])) [])
            /\ (List.length ["X"] <= 10)%nat
            /\ NoDup ["X"]
            /\ incl ["X"] (keys one_stock)
            /\ select_stocks (CustomStrategy ["X"]) one_stock = ([], Return ["X"])) as H.
  { intros out Hrun. split; [exact Hrun|].
    exact (menu_custom_strategy_capped float01 as_typed 1 one_stock ["1"; "X,Q,X"]
             out ["X"] [] Hwf Hrun). }
  apply H. vm_compute. reflexivity.
Defined.

(** ** The whole run *)

Lemma invest_returns_listed self md symbols :
  positive_prices md = true ->
  select_stocks (strategy self) md = ([], Return symbols) ->
  incl (keys (portfolio self)) (keys md) ->
  exists out self',
    invest self md = (out, Return self')
    /\ incl (keys (portfolio self')) (keys md).
Proof.
  intros Hp Hsel Hincl.
  assert (exists out self', invest self md = (out, Return self')) as (out & self' & Hrun).
  { destruct symbols as [|s l] eqn:E.
    - exists [NoValidStocks], self. unfold invest.
      now rewrite (bind_returns _ _ [] Hsel).
    - destruct (invest_runs self md (s :: l) Hp Hsel) as (self' & Hrun & _);
        [discriminate|]. now exists [], self'. }
  exists out, self'. split; [exact Hrun|].
  now apply (invest_inv self md out self' Hrun).
Qed.

Lemma market_data_ready :
  positive_prices market_data = true /\ all_have_change market_data = true.
Proof. split; reflexivity. Qed.

Lemma player_invests strategy :
  strategy <> RandomStrategy ->
  exists out player,
    invest (mkInvestor "Player" strategy 100000 []) market_data = (out, Return player)
    /\ name player = "Player"
    /\ incl (keys (portfolio player)) (keys market_data).
Proof.
  intros Hnr. destruct market_data_ready as [Hp Hc].
  assert (exists symbols,
            select_stocks strategy market_data = ([], Return symbols)) as [symbols Hsel].
  { destruct strategy as [| | |stocks].
    - eexists. now apply aggressive_select.
    - eexists. now apply conservative_select.
    - congruence.
    - eexists. reflexivity. }
  destruct (invest_returns_listed (mkInvestor "Player" strategy 100000 [])
              market_data symbols Hp Hsel) as (out & player & Hrun & Hl);
    [intros k []|].
  exists out, player. split; [exact Hrun|]. split; [|exact Hl].
  now apply (invest_inv _ _ _ _ Hrun).
Qed.

Lemma alice_and_bob_invest :
  exists alice bob,
    invest (mkInvestor "Alice" AggressiveStrategy 100000 []) market_data
    = ([], Return alice)
    /\ invest (mkInvestor "Bob" ConservativeStrategy 100000 []) market_data
       = ([], Return bob)
    /\ incl (keys (portfolio alice)) (keys market_data)
    /\ incl (keys (portfolio bob)) (keys market_data).
Proof.
  destruct (invest (mkInvestor "Alice" AggressiveStrategy 100000 []) market_data)
    as [oa [e|alice]] eqn:Ea; [vm_compute in Ea; discriminate|].
  destruct (invest (mkInvestor "Bob" ConservativeStrategy 100000 []) market_data)
    as [ob [e|bob]] eqn:Eb; [vm_compute in Eb; discriminate|].
  exists alice, bob.
  assert (oa = []) as -> by (vm_compute in Ea; congruence).
  assert (ob = []) as -> by (vm_compute in Eb; congruence).
  split; [reflexivity|]. split; [reflexivity|]. split.
  - apply (invest_inv _ _ _ _ Ea). intros k [].
  - apply (invest_inv _ _ _ _ Eb). intros k [].
Qed.

(** X21.  If the menu hands back no strategy (criteria that match
    nothing) the program stops with [AttributeError], and if it hands back
    the Random strategy it stops with [NameError]; in both cases this
    happens at the player's [invest], after Alice and Bob have invested,
    and no portfolio is displayed and no comparison printed. *)
Theorem main_fails_without_usable_strategy
    (float : string -> option PyFloat) (clean : string -> string)
    (frames : nat) (stdin : list string) (out : list Console.Line)
    (player_strategy : option Strategy) (rest : list string) :
  Console.player_options_menu float clean frames market_data stdin
  = (out, Console.Done player_strategy rest) ->
  (player_strategy = None ->
   Console.main float clean frames stdin = (out, Console.Fail Console.AttributeError))
  /\ (player_strategy = Some RandomStrategy ->
      Console.main float clean frames stdin
      = (out, Console.Fail (Console.Uncaught (NameError "random")))).
Proof.
  intros Hmenu.
  destruct alice_and_bob_invest as (alice & bob & Ha & Hb & _ & _).
  split; intros ->; unfold Console.main, Console.io_bind; rewrite Hmenu;
    rewrite (lift_done _ _ _ rest Ha), (lift_done _ _ _ rest Hb); cbn [map app].
  - unfold Console.io_fail. now rewrite app_nil_r.
  - unfold Console.lift. cbn [invest strategy select_stocks bind raise].
    now rewrite app_nil_r.
Qed.

Lemma main_fails_without_usable_strategy_witness :
  exists out,
    Console.player_options_menu float01 as_typed 2 market_data ["2"; "3"]
    = (out, Console.Done (Some RandomStrategy) [])
    /\ Console.main float01 as_typed 2 ["2"; "3"]
       = (out, Console.Fail (Console.Uncaught (NameError "random"))).
Proof.
  eexists.
  assert (forall out,
            Console.player_options_menu float01 as_typed 2 market_data ["2"; "3"]
            = (out, Console.Done (Some RandomStrategy) []) ->
            Console.player_options_menu float01 as_typed 2 market_data ["2"; "3"]
            = (out, Console.Done (Some RandomStrategy) [])
            /\ Console.main float01 as_typed 2 ["2"; "3"]
               = (out, Console.Fail (Console.Uncaught (NameError "random")))) as H.
  { intros out Hrun. split; [exact Hrun|].
    exact (proj2 (main_fails_without_usable_strategy float01 as_typed 2 ["2"; "3"]
                    out (Some RandomStrategy) [] Hrun) eq_refl). }
  apply H. vm_compute. reflexivity.
Defined.

(** The criteria path to no strategy at all. *)
Example main_stops_on_unmatched_criteria :
  exists out,
    Console.main float01 as_typed 1 ["3"; "0,1"; "0,1"]
    = (out, Console.Fail Console.AttributeError).
Proof. eexists. vm_compute. reflexivity. Qed.

(** X22.  With any strategy other than Random handed back by the menu,
    the program runs to its end on its two tables: all three investors
    invest, the three portfolios are displayed, and the last line names
    the best performer. *)
Theorem main_completes
    (float : string -> option PyFloat) (clean : string -> string)
    (frames : nat) (stdin : list string) (out : list Console.Line)
    (strategy : Strategy) (rest : list string) :
  Console.player_options_menu float clean frames market_data stdin
  = (out, Console.Done (Some strategy) rest) ->
  strategy <> RandomStrategy ->
  exists shown best r,
    Console.main float clean frames stdin
    = (out ++ shown ++ [Console.Core (BestPerformer best r)], Console.Done tt rest)
    /\ In (Console.PortfolioHeader "Player") shown
    /\ In (Console.PortfolioHeader "Alice") shown
    /\ In (Console.PortfolioHeader "Bob") shown.
Proof.
  intros Hmenu Hnr.
  destruct alice_and_bob_invest as (alice & bob & Ha & Hb & Hla & Hlb).
  destruct (player_invests strategy Hnr) as (op & player & Hp & Hname & Hlp).
  assert (name alice = "Alice") as Hna by now apply (invest_inv _ _ _ _ Ha).
  assert (name bob = "Bob") as Hnb by now apply (invest_inv _ _ _ _ Hb).
  destruct (compare_portfolios_runs [alice; bob; player] market_data
              market_data_next_year)
    as (outc & _ & _ & best & _ & _ & _ & _ & Hc & _).
  { discriminate. }
  { intros i [<-|[<-|[<-|[]]]]; assumption. }
  exists (map Console.Core op
          ++ fst (Console.display_portfolio player rest)
          ++ fst (Console.display_portfolio alice rest)
          ++ fst (Console.display_portfolio bob rest)
          ++ map Console.Core outc),
         (fst best), (snd best).
  split.
  - unfold Console.main, Console.io_bind. rewrite Hmenu.
    rewrite (lift_done _ _ _ rest Ha), (lift_done _ _ _ rest Hb),
      (lift_done _ _ _ rest Hp).
    unfold Console.display_portfolio. cbv beta iota.
    rewrite (lift_done _ _ _ rest Hc). cbn [map app fst].
    rewrite map_app. cbn [map app].
    repeat (rewrite <- app_assoc; cbn [app]). reflexivity.
  - unfold Console.display_portfolio. cbn [fst]. rewrite Hname, Hna, Hnb.
    split; [|split].
    + apply in_or_app. right. now left.
    + apply in_or_app. right. apply in_or_app. right. now left.
    + apply in_or_app. right. apply in_or_app. right.
      apply in_or_app. right. now left.
Qed.

Lemma main_completes_witness :
  exists out,
    Console.player_options_menu float01 as_typed 1 market_data ["1"; "AAPL,KO"]
    = (out, Console.Done (Some (CustomStrategy ["AAPL"; "KO"])) [])
    /\ CustomStrategy ["AAPL"; "KO"] <> RandomStrategy
    /\ exists shown best r,
      Console.main float01 as_typed 1 ["1"; "AAPL,KO"]
      = (out ++ shown ++ [Console.Core (BestPerformer best r)], Console.Done tt [])
      /\ In (Console.PortfolioHeader "Player") shown
      /\ In (Console.PortfolioHeader "Alice") shown
      /\ In (Console.PortfolioHeader "Bob") shown.
Proof.
  eexists.
  assert (forall out,
            Console.player_options_menu float01 as_typed 1 market_data ["1"; "AAPL,KO"]
            = (out, Console.Done (Some (CustomStrategy ["AAPL"; "KO"])) []) ->
            Console.player_options_menu float01 as_typed 1 market_data ["1"; "AAPL,KO"]
            = (out, Console.Done (Some (CustomStrategy ["AAPL"; "KO"])) [])
            /\ CustomStrategy ["AAPL"; "KO"] <> RandomStrategy
            /\ exists shown best r,
              Console.main float01 as_typed 1 ["1"; "AAPL,KO"]
              = (out ++ shown ++ [Console.Core (BestPerformer best r)],
                 Console.Done tt [])
              /\ In (Console.PortfolioHeader "Player") shown
              /\ In (Console.PortfolioHeader "Alice") shown
              /\ In (Console.PortfolioHeader "Bob") shown) as H.
  { intros out Hrun. split; [exact Hrun|]. split; [discriminate|].
    apply (main_completes float01 as_typed 1 ["1"; "AAPL,KO"] out
             (CustomStrategy ["AAPL"; "KO"]) [] Hrun). discriminate. }
  apply H. vm_compute. reflexivity.
Defined.
